(** * Hawk-Eye generator: the ball localizer, the temporal sampler, the
    analysis run and the bounce marker, embedded from the TypeScript sources.

    - [Js]            JavaScript numbers as an interface, with two instances:
                      exact rationals ([Q]) for general arguments and IEEE
                      binary64 ([float]) for evaluating concrete runs the way
                      a JavaScript engine computes them.
    - [DetectionPoint], [HawkEyePoint]   src/types/analysis.ts
    - [Vision]        [detectBall] of the VideoAnalyzer component, over a heap
                      of OpenCV handles.
    - [Sampler]       [seekVideo] and [extractDetections].
    - [TrajectoryLib] the projector of lib/trajectory (not among the sources).
    - [Analyzer]      [handleAnalyze] over the component's React state.
    - [HawkEyeView]   the bounce scan of the HawkEyeView component. *)

From Stdlib Require Import QArith Qminmax Qround Qabs ZArith List String Bool Lia Lqa Floats.
Import ListNotations.

Set Warnings "-inexact-float".

(** ** JavaScript numbers *)

Module Js.

(** The operations the sources apply to numbers.  [fromZ] reads an integer
    literal or an integer-valued DOM attribute; [ltb], [leb], [eqb] are [<],
    [<=] and [===]; [round] is [Math.round]; [PI] is [Math.PI]. *)
Class Number (num : Type) : Type := {
  fromZ : Z -> num;
  add : num -> num -> num;
  sub : num -> num -> num;
  mul : num -> num -> num;
  div : num -> num -> num;
  ltb : num -> num -> bool;
  leb : num -> num -> bool;
  eqb : num -> num -> bool;
  min : num -> num -> num;
  max : num -> num -> num;
  abs : num -> num;
  round : num -> num;
  PI : num
}.

(** A decimal literal such as [0.08], read as the quotient of two integers
    (for binary64 the correctly rounded quotient is the literal's value). *)
Definition decimal {num} `{Number num} (n d : Z) : num := div (fromZ n) (fromZ d).

(** Exact arithmetic.  [Math.PI] is the rational the binary64 constant
    denotes. *)
#[export] Instance Number_Q : Number Q := {
  fromZ := inject_Z;
  add := Qplus;
  sub := Qminus;
  mul := Qmult;
  div := Qdiv;
  ltb := fun a b => negb (Qle_bool b a);
  leb := Qle_bool;
  eqb := Qeq_bool;
  min := Qmin;
  max := Qmax;
  abs := Qabs;
  round := fun a => inject_Z (Qfloor (a + (1 # 2)));
  PI := 884279719003555 # 281474976710656
}.

(** IEEE binary64, the numbers of a JavaScript engine. *)
Definition two52 : float := 4503599627370496%float.

Definition float_floor (a : float) : float :=
  if PrimFloat.is_nan a then a
  else if PrimFloat.leb two52 (PrimFloat.abs a) then a
  else
    let r := if PrimFloat.ltb a 0 then ((a - two52) + two52)%float
             else ((a + two52) - two52)%float in
    if PrimFloat.ltb a r then (r - 1)%float else r.

(** [Math.round]: halves go up, and a zero result keeps the sign of the
    argument ([Math.round(-0.3)] and [Math.round(-0)] are [-0]). *)
Definition float_round (a : float) : float :=
  let f := float_floor a in
  let r := if PrimFloat.leb 0.5 (a - f) then (f + 1)%float else f in
  if PrimFloat.eqb r 0 && PrimFloat.get_sign a then (PrimFloat.opp 0)%float else r.

Definition float_min (a b : float) : float :=
  if PrimFloat.is_nan a then a
  else if PrimFloat.is_nan b then b
  else if PrimFloat.ltb a b then a
  else if PrimFloat.ltb b a then b
  else if PrimFloat.get_sign a then a else b.

Definition float_max (a b : float) : float :=
  if PrimFloat.is_nan a then a
  else if PrimFloat.is_nan b then b
  else if PrimFloat.ltb a b then b
  else if PrimFloat.ltb b a then a
  else if PrimFloat.get_sign a then b else a.

#[export] Instance Number_float : Number float := {
  fromZ := fun z => SF2Prim (binary_normalize prec emax z 0 false);
  add := PrimFloat.add;
  sub := PrimFloat.sub;
  mul := PrimFloat.mul;
  div := PrimFloat.div;
  ltb := PrimFloat.ltb;
  leb := PrimFloat.leb;
  eqb := PrimFloat.eqb;
  min := float_min;
  max := float_max;
  abs := PrimFloat.abs;
  round := float_round;
  PI := 3.141592653589793%float
}.

(** What a function call or an awaited promise comes to: a value, a thrown
    value, or a promise that never settles. *)
Inductive Thrown : Type :=
  | ErrorObject (message : string)   (* [new Error(message)] *)
  | OtherValue.                      (* anything that is not an [Error] *)

Inductive Completion (A : Type) : Type :=
  | Returned (a : A)
  | Threw (e : Thrown)
  | Pending.

Arguments Returned {A} a.
Arguments Threw {A} e.
Arguments Pending {A}.

End Js.

Import Js.

(** ** src/types/analysis.ts *)

Module DetectionPoint.
Record t (num : Type) : Type := mk {
  time : num;
  x : num;
  y : num;
  normX : num;
  normY : num;
  confidence : num
}.
Arguments mk {num}.
Arguments time {num}.
Arguments x {num}.
Arguments y {num}.
Arguments normX {num}.
Arguments normY {num}.
Arguments confidence {num}.
End DetectionPoint.

Module HawkEyePoint.
Record t (num : Type) : Type := mk {
  time : num;
  distance : num;
  lateral : num;
  height : num;
  confidence : num
}.
Arguments mk {num}.
Arguments time {num}.
Arguments distance {num}.
Arguments lateral {num}.
Arguments height {num}.
Arguments confidence {num}.
End HawkEyePoint.

(** ** The ball localizer: [detectBall] *)

Module Vision.

(** *** The heap of OpenCV handles

    Every [cv.Mat] and [cv.MatVector], and every [Mat] handed out by
    [MatVector.get], lives in the runtime's heap until its [delete] is
    called.  ([cv.Size] and the result of [cv.moments] are plain JavaScript
    values and own nothing.)  A handle is named after the variable that
    holds it. *)

Record Handle : Type := mkHandle { hid : nat; hname : string }.

Record Heap : Type := mkHeap { nextId : nat; live : list Handle }.

Definition emptyHeap : Heap := mkHeap 0 [].

Definition M (A : Type) : Type := Heap -> A * Heap.

Definition ret {A} (a : A) : M A := fun h => (a, h).

Definition bind {A B} (m : M A) (k : A -> M B) : M B :=
  fun h => let (a, h') := m h in k a h'.

Notation "x <- m ;; k" := (bind m (fun x => k))
  (at level 61, m at next level, right associativity).
Notation "m ;;; k" := (bind m (fun _ => k))
  (at level 61, right associativity).

(** [new cv.Mat(...)], [cv.imread], [cv.Mat.ones], [new cv.MatVector()],
    [contours.get(i)]. *)
Definition alloc (name : string) : M Handle :=
  fun h =>
    let hd := mkHandle (nextId h) name in
    (hd, mkHeap (S (nextId h)) (live h ++ [hd])).

(** [handle.delete()]. *)
Definition delete (hd : Handle) : M unit :=
  fun h => (tt, mkHeap (nextId h) (filter (fun k => negb (Nat.eqb (hid k) (hid hd))) (live h))).

(** Every live handle was handed out by this heap. *)
Definition fresh (h : Heap) : Prop :=
  Forall (fun k => (hid k < nextId h)%nat) (live h).

Section DetectBall.
Context {num : Type} `{Number num}.

(** What the vision primitives report about one contour of the mask:
    [cv.contourArea], [cv.arcLength(contour, true)] and [cv.moments]. *)
Record Contour : Type := mkContour {
  area : num;
  perimeter : num;
  m00 : num;
  m10 : num;
  m01 : num
}.

(** What the vision primitives report about the canvas: whether the matrix
    read from it is empty, its size, and the external contours that
    [cv.findContours] extracts from the red mask after blur, colour
    conversion, thresholding and morphology. *)
Record Frame : Type := mkFrame {
  empty : bool;
  cols : num;
  rows : num;
  contours : list Contour
}.

Record Candidate : Type := mkCandidate {
  x : num;
  y : num;
  confidence : num
}.

(** [circularity * area] of a contour. *)
Definition score (c : Contour) : num :=
  let circularity :=
    div (mul (mul (fromZ 4) PI) (area c)) (mul (perimeter c) (perimeter c)) in
  mul circularity (area c).

(** The contour loop: [i] is the loop index, [best] the pair
    [(bestContourIndex, bestScore)].  Each [continue] skips the rest of the
    body. *)
Fixpoint contourLoop (cs : list Contour) (i : Z) (best : Z * num) : M (Z * num) :=
  match cs with
  | [] => ret best
  | c :: rest =>
      contour <- alloc "contour" ;;
      if ltb (area c) (fromZ 15) then
        contourLoop rest (i + 1)%Z best
      else if eqb (perimeter c) (fromZ 0) then
        contourLoop rest (i + 1)%Z best
      else
        let best' := if ltb (snd best) (score c) then (i, score c) else best in
        delete contour ;;;
        contourLoop rest (i + 1)%Z best'
  end.

Definition detectBallWith (downscaleWidth : num) (src : Frame) : M (option Candidate) :=
  mat <- alloc "mat" ;;
  if empty src then
    delete mat ;;;
    ret None
  else
    let scale := if ltb downscaleWidth (cols src) then div downscaleWidth (cols src)
                 else fromZ 1 in
    let targetWidth := round (mul (cols src) scale) in
    let targetHeight := round (mul (rows src) scale) in
    resized <- alloc "resized" ;;
    blurred <- alloc "blurred" ;;
    rgb <- alloc "rgb" ;;
    hsv <- alloc "hsv" ;;
    lowerRed1 <- alloc "lowerRed1" ;;
    upperRed1 <- alloc "upperRed1" ;;
    lowerRed2 <- alloc "lowerRed2" ;;
    upperRed2 <- alloc "upperRed2" ;;
    mask1 <- alloc "mask1" ;;
    mask2 <- alloc "mask2" ;;
    mask <- alloc "mask" ;;
    kernel <- alloc "kernel" ;;
    contoursVec <- alloc "contours" ;;
    hierarchy <- alloc "hierarchy" ;;
    best <- contourLoop (contours src) 0%Z ((-1)%Z, fromZ 0) ;;
    let bestContourIndex := fst best in
    let bestScore := snd best in
    result <-
      (if (0 <=? bestContourIndex)%Z then
         contour <- alloc "contour" ;;
         let result :=
           match nth_error (contours src) (Z.to_nat bestContourIndex) with
           | Some c =>
               if negb (eqb (m00 c) (fromZ 0)) then
                 let scaleFactorX := div (cols src) targetWidth in
                 let scaleFactorY := div (rows src) targetHeight in
                 let cx := round (mul (div (m10 c) (m00 c)) scaleFactorX) in
                 let cy := round (mul (div (m01 c) (m00 c)) scaleFactorY) in
                 let confidence := min (fromZ 1) (div bestScore (fromZ 1500)) in
                 Some (mkCandidate cx cy confidence)
               else None
           | None => None
           end in
         delete contour ;;;
         ret result
       else ret None) ;;
    delete mat ;;;
    delete resized ;;;
    delete blurred ;;;
    delete rgb ;;;
    delete hsv ;;;
    delete mask ;;;
    delete mask1 ;;;
    delete mask2 ;;;
    delete kernel ;;;
    delete contoursVec ;;;
    delete hierarchy ;;;
    delete lowerRed1 ;;;
    delete upperRed1 ;;;
    delete lowerRed2 ;;;
    delete upperRed2 ;;;
    ret result.

(** [detectBall(cv, src)] with the default [downscaleWidth = 480]. *)
Definition detectBall (src : Frame) : M (option Candidate) :=
  detectBallWith (fromZ 480) src.

(** The value a call returns, and the handles it leaves behind when it
    starts on a heap with nothing allocated. *)
Definition detectBallResult (src : Frame) : option Candidate :=
  fst (detectBall src emptyHeap).

Definition leaked (src : Frame) : list Handle :=
  live (snd (detectBall src emptyHeap)).

(** Successive calls on the runtime's one heap, one per frame, as the
    sampling loop makes them. *)
Fixpoint detectBallEach (srcs : list Frame) : M (list (option Candidate)) :=
  match srcs with
  | [] => ret []
  | src :: rest =>
      result <- detectBall src ;;
      results <- detectBallEach rest ;;
      ret (result :: results)
  end.

(** The contours that pass the loop's two rejections. *)
Definition qualifies (c : Contour) : bool :=
  negb (ltb (area c) (fromZ 15)) && negb (eqb (perimeter c) (fromZ 0)).

(** *** Descriptions used in the proofs

    The pair the contour loop ends with, whatever the heap. *)
Fixpoint scan (cs : list Contour) (i : Z) (best : Z * num) : Z * num :=
  match cs with
  | [] => best
  | c :: rest =>
      if qualifies c
      then scan rest (i + 1)%Z (if ltb (snd best) (score c) then (i, score c) else best)
      else scan rest (i + 1)%Z best
  end.

(** The handles the loop leaves behind: one per rejected contour. *)
Fixpoint strays (cs : list Contour) (n : nat) : list Handle :=
  match cs with
  | [] => []
  | c :: rest =>
      if qualifies c then strays rest (S n)
      else mkHandle n "contour" :: strays rest (S n)
  end.

(** The candidate built from the loop's result. *)
Definition candidateOf (src : Frame) (downscaleWidth : num) (best : Z * num)
  : option Candidate :=
  if (0 <=? fst best)%Z then
    match nth_error (contours src) (Z.to_nat (fst best)) with
    | Some c =>
        if negb (eqb (m00 c) (fromZ 0)) then
          let scale := if ltb downscaleWidth (cols src) then div downscaleWidth (cols src)
                       else fromZ 1 in
          Some (mkCandidate
                  (round (mul (div (m10 c) (m00 c))
                            (div (cols src) (round (mul (cols src) scale)))))
                  (round (mul (div (m01 c) (m00 c))
                            (div (rows src) (round (mul (rows src) scale)))))
                  (min (fromZ 1) (div (snd best) (fromZ 1500))))
        else None
    | None => None
    end
  else None.

(** How many contours of a frame the loop rejects; none are looked at when
    the matrix is empty. *)
Definition rejected (src : Frame) : nat :=
  if empty src then 0%nat
  else List.length (filter (fun c => negb (qualifies c)) (contours src)).

(** The contour the centroid is taken from: the one at [bestContourIndex]
    after the loop, when that index is not [-1]. *)
Definition bestContour (src : Frame) : option Contour :=
  let best := scan (contours src) 0 ((-1)%Z, fromZ 0) in
  if (0 <=? fst best)%Z then nth_error (contours src) (Z.to_nat (fst best))
  else None.

(** The contour at index [k] is the first of largest score among those
    that pass the loop's two rejections. *)
Definition firstMaximum (src : Frame) (k : nat) (c : Contour) : Prop :=
  nth_error (contours src) k = Some c /\ qualifies c = true /\
  (forall c', In c' (contours src) -> qualifies c' = true ->
              ltb (score c) (score c') = false) /\
  (forall j c', (j < k)%nat -> nth_error (contours src) j = Some c' ->
                qualifies c' = true -> ltb (score c') (score c) = true).

End DetectBall.

Arguments Contour num : clear implicits.
Arguments Frame num : clear implicits.
Arguments Candidate num : clear implicits.

End Vision.

(** ** The temporal sampler: [seekVideo] and [extractDetections] *)

Module Sampler.

Definition MAX_SAMPLES : Z := 320.

Definition dimensionsMessage : string :=
  "Video dimensions unavailable. Please choose a different file.".
Definition surfaceMessage : string := "Unable to create analysis surface.".
Definition seekMessage : string := "Failed to seek video frame.".

Section Sampler.
Context {num : Type} `{Number num}.

Definition SAMPLE_INTERVAL_SECONDS : num := decimal 8 100.

(** The video element and the page around it, as far as the sampler meets
    them: the intrinsic size and the duration once the metadata is there
    (the [await ensureVideoReady(video)] that opens [extractDetections] has
    resolved; if [loadedmetadata] never comes the run stays pending there,
    which is not represented), the playback position at the start,
    which event answers a seek to a given position ([true]: [seeked],
    [false]: [error]), the picture the canvas holds after [drawImage] at a
    playback position, as the vision primitives read it, and whether
    [canvas.getContext('2d')] yields a context. *)
Record Video : Type := mkVideo {
  videoWidth : Z;
  videoHeight : Z;
  duration : num;
  currentTime : num;
  seeked : num -> bool;
  picture : num -> Vision.Frame num;
  hasContext2d : bool
}.

(** What the sampler does to the world around it, in order. *)
Inductive Event : Type :=
  | Seek (target : num)        (* [video.currentTime = ...] *)
  | Draw (position : num)      (* [ctx.drawImage(video, ...)] *)
  | Progress (value : num).    (* [onProgress(value)] *)

(** [seekVideo(video, time)] with the playback position [current]: the
    position afterwards, or the rejection, and the seek request if one was
    made.  The video is taken to answer every seek, with [seeked] or with
    [error], and the position assigned to be finite, as it is whenever the
    duration is: a seek that is never answered leaves the promise pending,
    and the assignment of a non-finite [currentTime] throws a [TypeError];
    neither is represented. *)
Definition seekVideo (video : Video) (current time : num)
  : Completion num * list Event :=
  if ltb (abs (sub current time)) (decimal 1 100) then (Returned current, [])
  else
    let target := min (max time (fromZ 0)) (duration video) in
    if seeked video target then (Returned target, [Seek target])
    else (Threw (ErrorObject seekMessage), [Seek target]).

Record LoopState : Type := mkLoopState {
  position : num;                              (* [video.currentTime] *)
  detections : list (DetectionPoint.t num);
  events : list Event
}.

Record Run : Type := mkRun {
  outcome : Completion (list (DetectionPoint.t num));
  trace : list Event
}.

(** One pass through the loop body once the seek has left the video at
    [pos], [evs] being the seek's events: draw the frame, run the localizer,
    push the detection if there is one, report the progress. *)
Definition afterStep (video : Video) (width height : Z) (time : num)
    (st : LoopState) (pos : num) (evs : list Event) : LoopState :=
  let detection := Vision.detectBallResult (picture video pos) in
  let detections' :=
    match detection with
    | Some d =>
        detections st ++
        [DetectionPoint.mk time (Vision.x d) (Vision.y d)
           (div (Vision.x d) (fromZ width))
           (div (Vision.y d) (fromZ height))
           (Vision.confidence d)]
    | None => detections st
    end in
  let progress := min (fromZ 1) (div time (duration video)) in
  mkLoopState pos detections' (events st ++ evs ++ [Draw pos; Progress progress]).

(** The [for] loop.  [fuel] bounds the unfolding only; the loop's own
    condition ends it (see [sampleLoop_settles]). *)
Fixpoint sampleLoop (fuel : nat) (video : Video) (width height : Z)
    (sampleInterval time : num) (sampleIndex : Z) (st : LoopState) : Run :=
  match fuel with
  | O => mkRun Pending (events st)
  | S fuel' =>
      if leb time (duration video) && (sampleIndex <=? MAX_SAMPLES)%Z then
        match seekVideo video (position st) time with
        | (Returned pos, evs) =>
            sampleLoop fuel' video width height sampleInterval
              (add time sampleInterval) (sampleIndex + 1)%Z
              (afterStep video width height time st pos evs)
        | (Threw e, evs) => mkRun (Threw e) (events st ++ evs)
        | (Pending, evs) => mkRun Pending (events st ++ evs)
        end
      else mkRun (Returned (detections st)) (events st)
  end.

Definition sampleInterval (video : Video) : num :=
  max SAMPLE_INTERVAL_SECONDS (div (duration video) (fromZ MAX_SAMPLES)).

Definition extractDetections (video : Video) : Run :=
  let width := videoWidth video in
  let height := videoHeight video in
  if (width =? 0)%Z || (height =? 0)%Z then
    mkRun (Threw (ErrorObject dimensionsMessage)) []
  else if negb (hasContext2d video) then
    mkRun (Threw (ErrorObject surfaceMessage)) []
  else
    sampleLoop (Z.to_nat MAX_SAMPLES + 2) video width height
      (sampleInterval video) (fromZ 0) 0%Z
      (mkLoopState (currentTime video) [] []).

(** The values handed to [onProgress], in order, the number of sampled
    steps (one [drawImage] each), and the time of the [k]-th step. *)
Definition progressReports (evs : list Event) : list num :=
  flat_map (fun e => match e with Progress p => [p] | _ => [] end) evs.

Definition sampledSteps (evs : list Event) : nat :=
  List.length (filter (fun e => match e with Draw _ => true | _ => false end) evs).

(** The playback positions the frames were drawn at, and the positions
    sought, in order. *)
Definition drawPositions (evs : list Event) : list num :=
  flat_map (fun e => match e with Draw pos => [pos] | _ => [] end) evs.

Definition seekTargets (evs : list Event) : list num :=
  flat_map (fun e => match e with Seek target => [target] | _ => [] end) evs.

Fixpoint timeAt (interval : num) (k : nat) : num :=
  match k with
  | O => fromZ 0
  | S k' => add (timeAt interval k') interval
  end.

(** The progress value reported by the [k]-th step. *)
Definition progressAt (video : Video) (k : nat) : num :=
  min (fromZ 1) (div (timeAt (sampleInterval video) k) (duration video)).

(** What the loop variables satisfy at the head of every pass: the index
    counts the steps drawn so far, the time is the interval added up that
    many times, every step so far was taken at a time within the duration and
    reported its progress. *)
Definition traceInvariant (video : Video) (time : num) (i : Z)
    (st : LoopState) : Prop :=
  (0 <= i <= MAX_SAMPLES + 1)%Z /\
  time = timeAt (sampleInterval video) (Z.to_nat i) /\
  sampledSteps (events st) = Z.to_nat i /\
  progressReports (events st) = map (progressAt video) (seq 0 (Z.to_nat i)) /\
  (forall k, (k < Z.to_nat i)%nat ->
     leb (timeAt (sampleInterval video) k) (duration video) = true).

(** A detection point is the one pushed at step [k] for the candidate [cand]
    found in the frame drawn at [pos]. *)
Definition pushedAt (video : Video) (k : nat) (cand : Vision.Candidate num)
    (d : DetectionPoint.t num) : Prop :=
  d = DetectionPoint.mk (timeAt (sampleInterval video) k)
        (Vision.x cand) (Vision.y cand)
        (div (Vision.x cand) (fromZ (videoWidth video)))
        (div (Vision.y cand) (fromZ (videoHeight video)))
        (Vision.confidence cand).

(** What the detections and the drawn frames satisfy at the head of every
    pass: each detection was pushed for the candidate of a drawn frame, and
    each drawn frame with a candidate has its detection. *)
Definition provenanceInvariant (video : Video) (time : num) (i : Z)
    (st : LoopState) : Prop :=
  (0 <= i)%Z /\
  time = timeAt (sampleInterval video) (Z.to_nat i) /\
  List.length (drawPositions (events st)) = Z.to_nat i /\
  (forall d, In d (detections st) ->
     exists k pos cand,
       nth_error (drawPositions (events st)) k = Some pos /\
       Vision.detectBallResult (picture video pos) = Some cand /\
       pushedAt video k cand d) /\
  (forall k pos cand,
     nth_error (drawPositions (events st)) k = Some pos ->
     Vision.detectBallResult (picture video pos) = Some cand ->
     exists d, In d (detections st) /\ pushedAt video k cand d).

End Sampler.

Arguments Video num : clear implicits.
Arguments Event num : clear implicits.
Arguments Run num : clear implicits.
Arguments LoopState num : clear implicits.

(** What the detections gathered so far satisfy at the head of every pass,
    in exact arithmetic: they are earlier than the time of the pass, in
    strictly increasing order of time, normalized by the intrinsic size, of
    confidence within [0, 1], and no more than the steps drawn. *)
Definition detectionsInvariant (video : Video Q) (time : Q) (i : Z)
    (st : LoopState Q) : Prop :=
  (forall d, In d (detections st) -> (DetectionPoint.time d < time)%Q) /\
  (forall k d1 d2,
      nth_error (detections st) k = Some d1 ->
      nth_error (detections st) (S k) = Some d2 ->
      (DetectionPoint.time d1 < DetectionPoint.time d2)%Q) /\
  (forall d, In d (detections st) ->
      DetectionPoint.normX d = (DetectionPoint.x d / inject_Z (videoWidth video))%Q /\
      DetectionPoint.normY d = (DetectionPoint.y d / inject_Z (videoHeight video))%Q /\
      (0 <= DetectionPoint.confidence d <= 1)%Q) /\
  (List.length (detections st) <= sampledSteps (events st))%nat.

(** What the drawn frames satisfy at the head of every pass, in exact
    arithmetic: the frame of step [k] was drawn at a playback position less
    than 0.01 s away from the step's time. *)
Definition positionInvariant (video : Video Q) (time : Q) (i : Z)
    (st : LoopState Q) : Prop :=
  (0 <= i)%Z /\
  time = timeAt (sampleInterval video) (Z.to_nat i) /\
  List.length (drawPositions (events st)) = Z.to_nat i /\
  (forall k pos,
     nth_error (drawPositions (events st)) k = Some pos ->
     (Qabs (pos - timeAt (sampleInterval video) k) < 1 # 100)%Q).

End Sampler.

(** ** The projector of lib/trajectory *)

Module TrajectoryLib.
Section Projector.
Context {num : Type}.

(** The camera-to-pitch calibration: the spec leaves the three formulas
    open, so they are parameters here. *)
Variables distanceOf lateralOf heightOf : DetectionPoint.t num -> num.

(** Modelled from the spec: [convertDetectionsToHawkEye] of lib/trajectory,
    which the component imports and whose source is not available.  The spec
    has it map each detection to one point of the pitch frame, in order, with
    the detection's time and with the confidence passed through unchanged. *)
Definition projectPoint (d : DetectionPoint.t num) : HawkEyePoint.t num :=
  HawkEyePoint.mk (DetectionPoint.time d) (distanceOf d) (lateralOf d)
    (heightOf d) (DetectionPoint.confidence d).

Definition convertDetectionsToHawkEye (detections : list (DetectionPoint.t num))
  : list (HawkEyePoint.t num) :=
  map projectPoint detections.

End Projector.
End TrajectoryLib.

(** ** The analysis run: [handleAnalyze] *)

Module Analyzer.

Definition notReadyMessage : string := "Video element is not ready yet.".
Definition loadingMessage : string :=
  "Computer vision engine is still loading. Please wait a moment.".
Definition noSamplesMessage : string :=
  "No valid ball samples detected. Ensure the ball is clearly visible and contrasts with the pitch.".
Definition unexpectedMessage : string :=
  "Video analysis failed due to an unexpected error.".

Section Analyzer.
Context {num : Type} `{Number num}.

(** The component's state: one field per [useState], and the video element
    behind [videoRef] when it is mounted.  A file is known by its name. *)
Record State : Type := mkState {
  file : option string;
  videoUrl : option string;
  error : option string;
  isAnalyzing : bool;
  detections : list (DetectionPoint.t num);
  trajectory : list (HawkEyePoint.t num);
  progress : num;
  cvReady : bool;
  analysisTimestamp : option Z;
  videoRef : option (Sampler.Video num)
}.

Definition setError (v : option string) (s : State) : State :=
  mkState (file s) (videoUrl s) v (isAnalyzing s) (detections s) (trajectory s)
    (progress s) (cvReady s) (analysisTimestamp s) (videoRef s).
Definition setAnalyzing (v : bool) (s : State) : State :=
  mkState (file s) (videoUrl s) (error s) v (detections s) (trajectory s)
    (progress s) (cvReady s) (analysisTimestamp s) (videoRef s).
Definition setDetections (v : list (DetectionPoint.t num)) (s : State) : State :=
  mkState (file s) (videoUrl s) (error s) (isAnalyzing s) v (trajectory s)
    (progress s) (cvReady s) (analysisTimestamp s) (videoRef s).
Definition setTrajectory (v : list (HawkEyePoint.t num)) (s : State) : State :=
  mkState (file s) (videoUrl s) (error s) (isAnalyzing s) (detections s) v
    (progress s) (cvReady s) (analysisTimestamp s) (videoRef s).
Definition setProgress (v : num) (s : State) : State :=
  mkState (file s) (videoUrl s) (error s) (isAnalyzing s) (detections s)
    (trajectory s) v (cvReady s) (analysisTimestamp s) (videoRef s).
Definition setAnalysisTimestamp (v : option Z) (s : State) : State :=
  mkState (file s) (videoUrl s) (error s) (isAnalyzing s) (detections s)
    (trajectory s) (progress s) (cvReady s) v (videoRef s).

(** The imported [convertDetectionsToHawkEye], as a call that returns or
    throws, and the clock read by [Date.now()]. *)
Variable convert : list (DetectionPoint.t num) -> Completion (list (HawkEyePoint.t num)).
Variable now : Z.

(** The [onProgress] callback handed to [extractDetections], applied to
    each report in turn. *)
Definition reportProgress (evs : list (Sampler.Event num)) (s : State) : State :=
  fold_left (fun s' value => setProgress value s') (Sampler.progressReports evs) s.

(** The [catch] block. *)
Definition catchAnalysisError (analysisError : Thrown) (s : State) : State :=
  setError
    (Some match analysisError with
          | ErrorObject message => message
          | OtherValue => unexpectedMessage
          end) s.

(** What the [try] block comes to from the state [s]: the state when it
    completes, or the state reached and the value thrown, or the state at
    which it waits for ever. *)
Definition tryBlock (video : Sampler.Video num) (s : State) : State * Completion unit :=
  let run := Sampler.extractDetections video in
  let s := reportProgress (Sampler.trace run) s in
  match Sampler.outcome run with
  | Returned detectionPoints =>
      if (List.length detectionPoints =? 0)%nat then
        (s, Threw (ErrorObject noSamplesMessage))
      else
        match convert detectionPoints with
        | Returned hawkEyePoints =>
            let s := setDetections detectionPoints s in
            let s := setTrajectory hawkEyePoints s in
            let s := setAnalysisTimestamp (Some now) s in
            let s := setProgress (fromZ 1) s in
            (s, Returned tt)
        | Threw e => (s, Threw e)
        | Pending => (s, Pending)
        end
  | Threw e => (s, Threw e)
  | Pending => (s, Pending)
  end.

Definition handleAnalyze (s : State) : State :=
  match videoRef s with
  | None => setError (Some notReadyMessage) s
  | Some video =>
      if negb (cvReady s) then setError (Some loadingMessage) s
      else
        let s := setAnalyzing true s in
        let s := setError None s in
        let s := setProgress (fromZ 0) s in
        match tryBlock video s with
        | (s, Returned _) => setAnalyzing false s
        | (s, Threw analysisError) =>
            setAnalyzing false (catchAnalysisError analysisError s)
        | (s, Pending) => s
        end
  end.

(** The state [handleAnalyze] hands to the [try] block. *)
Definition started (s : State) : State :=
  setProgress (fromZ 0) (setError None (setAnalyzing true s)).

(** The width of the progress bar, in percent:
    [Math.round(progress * 100)]. *)
Definition progressBarWidth (s : State) : num :=
  round (mul (progress s) (fromZ 100)).

(** Two states agree on everything a run leaves alone unless it succeeds:
    the committed detections, trajectory and timestamp, and the fields
    [handleAnalyze] never writes. *)
Definition sameCommitted (s s' : State) : Prop :=
  detections s' = detections s /\ trajectory s' = trajectory s /\
  analysisTimestamp s' = analysisTimestamp s /\
  file s' = file s /\ videoUrl s' = videoUrl s /\ cvReady s' = cvReady s /\
  videoRef s' = videoRef s.

End Analyzer.

Arguments State num : clear implicits.

End Analyzer.

(** ** The bounce marker of the Hawk-Eye view *)

Module HawkEyeView.
Section View.
Context {num : Type} `{Number num}.

Definition PITCH_LENGTH_METERS : num := decimal 2012 100.
Definition PITCH_WIDTH_METERS : num := decimal 305 100.

Record Marker : Type := mkMarker {
  x : num;
  y : num;
  height : num;
  confidence : num
}.

Definition lateralRange : num :=
  add (div PITCH_WIDTH_METERS (fromZ 2)) (decimal 6 10).

Definition markerX (point : HawkEyePoint.t num) : num :=
  add (fromZ 50) (mul (div (HawkEyePoint.lateral point) lateralRange) (fromZ 38)).
Definition markerY (point : HawkEyePoint.t num) : num :=
  sub (fromZ 200)
    (mul (div (HawkEyePoint.distance point) PITCH_LENGTH_METERS) (fromZ 180)).

(** [index > 0 && point.height < points[index - 1].height]. *)
Definition isBounceCandidate (points : list (HawkEyePoint.t num))
    (point : HawkEyePoint.t num) (index : nat) : bool :=
  (0 <? index)%nat &&
  match nth_error points (index - 1) with
  | Some previous => ltb (HawkEyePoint.height point) (HawkEyePoint.height previous)
  | None => false
  end.

(** The body of [points.forEach((point, index) => ...)] on
    [(viewMarkers, bestBounce)]; the SVG path string built alongside is
    text for the renderer and is left out. *)
Definition forEachBody (points : list (HawkEyePoint.t num))
    (point : HawkEyePoint.t num) (index : nat)
    (acc : list Marker * option (HawkEyePoint.t num))
  : list Marker * option (HawkEyePoint.t num) :=
  let (viewMarkers, bestBounce) := acc in
  let viewMarkers :=
    viewMarkers ++
    [mkMarker (markerX point) (markerY point) (HawkEyePoint.height point)
       (HawkEyePoint.confidence point)] in
  let bestBounce :=
    if isBounceCandidate points point index &&
       match bestBounce with Some _ => false | None => true end
    then Some point else bestBounce in
  (viewMarkers, bestBounce).

Fixpoint forEachFrom (points rest : list (HawkEyePoint.t num)) (index : nat)
    (acc : list Marker * option (HawkEyePoint.t num))
  : list Marker * option (HawkEyePoint.t num) :=
  match rest with
  | [] => acc
  | point :: rest' =>
      forEachFrom points rest' (S index) (forEachBody points point index acc)
  end.

Record Memo : Type := mkMemo {
  pointMarkers : list Marker;
  peakHeight : num;
  bouncePoint : option (HawkEyePoint.t num)
}.

(** The first [useMemo] of the component. *)
Definition memo (points : list (HawkEyePoint.t num)) : Memo :=
  match points with
  | [] => mkMemo [] (fromZ 0) None
  | first :: _ =>
      let (viewMarkers, bestBounce) := forEachFrom points points 0 ([], None) in
      let peak :=
        fold_left
          (fun acc point =>
             if ltb (HawkEyePoint.height acc) (HawkEyePoint.height point)
             then point else acc)
          points first in
      mkMemo viewMarkers (HawkEyePoint.height peak) bestBounce
  end.

(** The centre [(cx, cy)] of the impact circle, drawn when there is a
    bounce point. *)
Definition bounceMarker (points : list (HawkEyePoint.t num)) : option (num * num) :=
  match bouncePoint (memo points) with
  | Some point => Some (markerX point, markerY point)
  | None => None
  end.

(** The height drops at index [i]: the point there lies lower than the
    one before it. *)
Definition descendsAt (points : list (HawkEyePoint.t num)) (i : nat) : Prop :=
  (0 < i)%nat /\
  exists previous point,
    nth_error points (i - 1) = Some previous /\
    nth_error points i = Some point /\
    ltb (HawkEyePoint.height point) (HawkEyePoint.height previous) = true.

(** The marker pushed for a point. *)
Definition markerOf (point : HawkEyePoint.t num) : Marker :=
  mkMarker (markerX point) (markerY point) (HawkEyePoint.height point)
    (HawkEyePoint.confidence point).

(** The second [useMemo], the height profile: the scale
    [Math.max(...points.map(p => p.height), 2)] and the coordinates handed to
    the path, one pair per point (the path string itself is text for the
    renderer and is left out). *)
Definition chartMaxHeight (points : list (HawkEyePoint.t num)) : num :=
  fold_right max (fromZ 2) (map HawkEyePoint.height points).

Definition seriesX (point : HawkEyePoint.t num) : num :=
  mul (div (HawkEyePoint.distance point) PITCH_LENGTH_METERS) (fromZ 100).

Definition seriesY (maxHeight : num) (point : HawkEyePoint.t num) : num :=
  sub (fromZ 60) (mul (div (HawkEyePoint.height point) maxHeight) (fromZ 50)).

Definition heightSeries (points : list (HawkEyePoint.t num)) : list (num * num) :=
  match points with
  | [] => []
  | _ =>
      let maxHeight := chartMaxHeight points in
      map (fun point => (seriesX point, seriesY maxHeight point)) points
  end.

(** The first point of [rest], which starts at [index] in [points], that
    is a bounce candidate. *)
Fixpoint findBounce (points rest : list (HawkEyePoint.t num)) (index : nat)
  : option (HawkEyePoint.t num) :=
  match rest with
  | [] => None
  | point :: rest' =>
      if isBounceCandidate points point index then Some point
      else findBounce points rest' (S index)
  end.

End View.
End HawkEyeView.

(** ** Concrete frames, clips and component states used below *)

Module Scenarios.
Section Scenarios.
Context {num : Type} `{Number num}.

(** A 4-pixel speck, below the area threshold. *)
Definition speck : Vision.Contour num :=
  Vision.mkContour (fromZ 4) (fromZ 8) (fromZ 4) (fromZ 40) (fromZ 40).

(** A degenerate contour: area 20, perimeter 0. *)
Definition thread : Vision.Contour num :=
  Vision.mkContour (fromZ 20) (fromZ 0) (fromZ 20) (fromZ 200) (fromZ 200).

(** A blob of 400 pixels with perimeter 71 and centroid (100, 50). *)
Definition ball : Vision.Contour num :=
  Vision.mkContour (fromZ 400) (fromZ 71) (fromZ 400) (fromZ 40000) (fromZ 20000).

Definition frameOf (cs : list (Vision.Contour num)) : Vision.Frame num :=
  Vision.mkFrame false (fromZ 640) (fromZ 480) cs.

Definition blankFrame : Vision.Frame num := frameOf [].
Definition speckFrame : Vision.Frame num := frameOf [speck].
Definition threadFrame : Vision.Frame num := frameOf [thread].
Definition ballFrame : Vision.Frame num := frameOf [ball].

(** A speck followed by two equal blobs. *)
Definition crowdedFrame : Vision.Frame num := frameOf [speck; ball; ball].

(** A 640x480 clip of the given duration (in hundredths of a second)
    showing the same picture throughout, every seek answered by [seeked]. *)
Definition clip (hundredths : Z) (frame : Vision.Frame num) : Sampler.Video num :=
  Sampler.mkVideo 640 480 (decimal hundredths 100) (fromZ 0)
    (fun _ => true) (fun _ => frame) true.

(** A 640x480 clip whose duration is the given number, every seek answered
    by [seeked]. *)
Definition clipLasting (seconds : num) (frame : Vision.Frame num) : Sampler.Video num :=
  Sampler.mkVideo 640 480 seconds (fromZ 0) (fun _ => true) (fun _ => frame) true.

(** The same clip on a page where no 2D context can be had, and one whose
    metadata reports no width. *)
Definition clipWithoutContext (hundredths : Z) : Sampler.Video num :=
  Sampler.mkVideo 640 480 (decimal hundredths 100) (fromZ 0)
    (fun _ => true) (fun _ => blankFrame) false.

Definition clipWithoutWidth (hundredths : Z) : Sampler.Video num :=
  Sampler.mkVideo 0 480 (decimal hundredths 100) (fromZ 0)
    (fun _ => true) (fun _ => blankFrame) true.

(** A clip whose every seek is answered by [error]. *)
Definition brokenClip (hundredths : Z) : Sampler.Video num :=
  Sampler.mkVideo 640 480 (decimal hundredths 100) (fromZ 0)
    (fun _ => false) (fun _ => blankFrame) true.

(** The component after an earlier analysis has been committed, with the
    given clip mounted and the vision engine loaded. *)
Definition earlierDetection : DetectionPoint.t num :=
  DetectionPoint.mk (fromZ 0) (fromZ 320) (fromZ 240) (decimal 1 2) (decimal 1 2) (fromZ 1).
Definition earlierPoint : HawkEyePoint.t num :=
  HawkEyePoint.mk (fromZ 0) (fromZ 2) (fromZ 0) (fromZ 1) (fromZ 1).

(** A two-point trajectory: a point on the centre line, 2 m down the pitch
    and 1 m high, then one 0.5 m to the side, 10 m down and 2.5 m high. *)
Definition risingTrajectory : list (HawkEyePoint.t num) :=
  [earlierPoint;
   HawkEyePoint.mk (decimal 8 100) (fromZ 10) (decimal 1 2) (decimal 5 2) (fromZ 1)].

Definition analysed (video : Sampler.Video num) : Analyzer.State num :=
  Analyzer.mkState (Some "delivery.mp4"%string) (Some "blob:delivery"%string) None false
    [earlierDetection] [earlierPoint] (fromZ 1) true (Some 1700000000000%Z)
    (Some video).

End Scenarios.
End Scenarios.

(** ** What the claims under test say, as propositions *)

Module Claims.
Section Claims.
Context {num : Type} `{Number num}.

(** The last value handed to [onProgress] by a completed run is [1]. *)
Definition finalProgressIsOne (video : Sampler.Video num) : Prop :=
  forall ds, Sampler.outcome (Sampler.extractDetections video) = Returned ds ->
    eqb (last (Sampler.progressReports (Sampler.trace (Sampler.extractDetections video)))
           (fromZ 0))
        (fromZ 1) = true.

(** [extractDetections] throws an error before any sampling step. *)
Definition throwsBeforeSampling (video : Sampler.Video num) : Prop :=
  exists message,
    Sampler.extractDetections video = Sampler.mkRun (Threw (ErrorObject message)) [].

(** The intrinsic width or height is falsy. *)
Definition dimensionsUnavailable (video : Sampler.Video num) : Prop :=
  Sampler.videoWidth video = 0%Z \/ Sampler.videoHeight video = 0%Z.

(** Nothing allocated by a [detectBall] call is still live when it
    returns. *)
Definition releasesEverything (src : Vision.Frame num) : Prop :=
  Vision.leaked src = [].

(** No run draws more than [MAX_SAMPLES] frames. *)
Definition atMostMaxSamples (video : Sampler.Video num) : Prop :=
  (Z.of_nat (Sampler.sampledSteps (Sampler.trace (Sampler.extractDetections video)))
     <= Sampler.MAX_SAMPLES)%Z.

End Claims.
End Claims.

(** * Properties *)

(** ** The heap of the ball localizer *)

Section VisionHeap.
Context {num : Type} `{Number num}.
Import Vision.

Lemma filter_keeps_others (j : nat) (l : list Handle) :
  Forall (fun k => hid k <> j) l ->
  filter (fun k => negb (Nat.eqb (hid k) j)) l = l.
Proof.
  induction 1 as [|k l Hk _ IH]; simpl; [reflexivity|].
  destruct (Nat.eqb_spec (hid k) j); [contradiction|]. simpl. now rewrite IH.
Qed.

Lemma alloc_delete (name : string) (h : Heap) :
  fresh h ->
  delete (mkHandle (nextId h) name)
    (mkHeap (S (nextId h)) (live h ++ [mkHandle (nextId h) name])) =
  (tt, mkHeap (S (nextId h)) (live h)).
Proof.
  intros Hf. unfold delete; simpl. do 2 f_equal.
  rewrite filter_app; simpl. rewrite Nat.eqb_refl; simpl.
  rewrite app_nil_r. apply filter_keeps_others.
  eapply Forall_impl; [|exact Hf]. simpl; intros; lia.
Qed.

Lemma contourLoop_run (cs : list (Contour num)) :
  forall i best h, fresh h ->
    contourLoop cs i best h =
    (scan cs i best, mkHeap (nextId h + List.length cs) (live h ++ strays cs (nextId h))).
Proof.
  induction cs as [|c rest IH]; intros i best h Hf.
  - simpl. unfold ret. destruct h; simpl. now rewrite Nat.add_0_r, app_nil_r.
  - cbn [contourLoop scan strays]. unfold bind at 1. unfold qualifies.
    cbn [alloc]. 
    destruct (ltb (area c) (fromZ 15)) eqn:Ha; cbn [negb andb].
    + rewrite IH.
      * simpl. now rewrite <- app_assoc, Nat.add_succ_r.
      * unfold fresh; simpl. apply Forall_app; split.
        -- eapply Forall_impl; [|exact Hf]. simpl; intros; lia.
        -- constructor; simpl; [lia|constructor].
    + destruct (eqb (perimeter c) (fromZ 0)) eqn:Hp; cbn [negb].
      * rewrite IH.
        -- simpl. now rewrite <- app_assoc, Nat.add_succ_r.
        -- unfold fresh; simpl. apply Forall_app; split.
           ++ eapply Forall_impl; [|exact Hf]. simpl; intros; lia.
           ++ constructor; simpl; [lia|constructor].
      * unfold bind. 
        rewrite (alloc_delete "contour" h Hf).
        rewrite IH.
        -- simpl. now rewrite Nat.add_succ_r.
        -- unfold fresh; simpl. eapply Forall_impl; [|exact Hf]. simpl; intros; lia.
Qed.

Lemma delete_apart (hd : Handle) (n : nat) (front back : list Handle) :
  Forall (fun k => hid k <> hid hd) back ->
  delete hd (mkHeap n (front ++ back)) =
  (tt, mkHeap n (filter (fun k => negb (Nat.eqb (hid k) (hid hd))) front ++ back)).
Proof.
  intros Hb. unfold delete; simpl. rewrite filter_app.
  now rewrite (filter_keeps_others _ back Hb).
Qed.

Lemma strays_ids (cs : list (Contour num)) :
  forall n, Forall (fun k => (n <= hid k)%nat) (strays cs n).
Proof.
  induction cs as [|c rest IH]; intros n; simpl; [constructor|].
  destruct (qualifies c).
  - eapply Forall_impl; [|apply IH]. simpl; intros; lia.
  - constructor; [simpl; lia|]. eapply Forall_impl; [|apply IH]. simpl; intros; lia.
Qed.

Lemma strays_below (cs : list (Contour num)) :
  forall n, Forall (fun k => (hid k < n + List.length cs)%nat) (strays cs n).
Proof.
  induction cs as [|c rest IH]; intros n; simpl; [constructor|].
  destruct (qualifies c).
  - eapply Forall_impl; [|apply IH]. simpl; intros; lia.
  - constructor; [simpl; lia|]. eapply Forall_impl; [|apply IH]. simpl; intros; lia.
Qed.

Lemma detectBallWith_run (w : num) (src : Frame num) :
  detectBallWith w src emptyHeap =
  if empty src then (None, mkHeap 1 [])
  else
    let best := scan (contours src) 0 ((-1)%Z, fromZ 0) in
    (candidateOf src w best,
     mkHeap (15 + List.length (contours src) + (if (0 <=? fst best)%Z then 1 else 0))
            (strays (contours src) 15)).
Proof.
  unfold detectBallWith.
  cbv beta iota delta [bind alloc ret emptyHeap nextId live].
  destruct (empty src); [reflexivity|].
  cbv beta iota zeta delta [bind alloc ret emptyHeap nextId live].
  cbn [app].
  rewrite contourLoop_run by (unfold fresh; simpl; repeat constructor).
  cbn [nextId live].
  set (n := (15 + List.length (contours src))%nat).
  set (base := [mkHandle 0 "mat"; mkHandle 1 "resized"; mkHandle 2 "blurred";
                mkHandle 3 "rgb"; mkHandle 4 "hsv"; mkHandle 5 "lowerRed1";
                mkHandle 6 "upperRed1"; mkHandle 7 "lowerRed2"; mkHandle 8 "upperRed2";
                mkHandle 9 "mask1"; mkHandle 10 "mask2"; mkHandle 11 "mask";
                mkHandle 12 "kernel"; mkHandle 13 "contours"; mkHandle 14 "hierarchy"]).
  assert (Hfresh : fresh (mkHeap n (base ++ strays (contours src) 15))).
  { unfold fresh; cbn [live nextId]. apply Forall_app; split.
    - subst base n. repeat (constructor; [simpl; lia|]). constructor.
    - apply strays_below. }
  assert (Hback : forall j, (j < 15)%nat ->
            Forall (fun k => hid k <> j) (strays (contours src) 15)).
  { intros j Hj. eapply Forall_impl; [|apply strays_ids]. simpl; intros; lia. }
  unfold candidateOf.
  destruct (scan (contours src) 0 ((-1)%Z, fromZ 0)) as [bestContourIndex bestScore].
  cbn [fst snd].
  destruct (0 <=? bestContourIndex)%Z.
  - pose proof (alloc_delete "contour" _ Hfresh) as Hd. cbn [nextId live] in Hd.
    cbn [nextId live]. rewrite Hd. subst base.
    repeat (rewrite delete_apart by (apply Hback; simpl; lia);
            cbn [filter negb Nat.eqb hid]).
    cbn [app]. now rewrite Nat.add_1_r.
  - subst base.
    repeat (rewrite delete_apart by (apply Hback; simpl; lia);
            cbn [filter negb Nat.eqb hid]).
    cbn [app]. now rewrite Nat.add_0_r.
Qed.

(** The value of a call and the handles it leaves behind. *)
Lemma detectBallResult_scan (src : Frame num) :
  detectBallResult src =
  if empty src then None
  else candidateOf src (fromZ 480) (scan (contours src) 0 ((-1)%Z, fromZ 0)).
Proof.
  unfold detectBallResult, detectBall. rewrite detectBallWith_run.
  now destruct (empty src).
Qed.

Lemma leaked_strays (src : Frame num) :
  leaked src = if empty src then [] else strays (contours src) 15.
Proof.
  unfold leaked, detectBall. rewrite detectBallWith_run.
  now destruct (empty src).
Qed.

Lemma strays_length (cs : list (Contour num)) :
  forall n, List.length (strays cs n) =
            List.length (filter (fun c => negb (qualifies c)) cs).
Proof.
  induction cs as [|c rest IH]; intros n; simpl; [reflexivity|].
  destruct (qualifies c); simpl; now rewrite IH.
Qed.

End VisionHeap.

(** ** The sampling loop *)

Section SamplerLoop.
Context {num : Type} `{Number num}.
Import Sampler.

(** A seek requests at most one position, draws nothing, reports nothing,
    and settles. *)
Lemma seekVideo_events (video : Video num) (current time : num) :
  snd (seekVideo video current time) = [] \/
  exists target, snd (seekVideo video current time) = [Seek target].
Proof.
  unfold seekVideo.
  destruct (ltb _ _); [now left|].
  destruct (seeked video _); right; eexists; reflexivity.
Qed.

Lemma seekVideo_settles (video : Video num) (current time : num) :
  fst (seekVideo video current time) <> Pending.
Proof.
  unfold seekVideo.
  destruct (ltb _ _); [discriminate|].
  destruct (seeked video _); discriminate.
Qed.

Lemma seekVideo_throws (video : Video num) (current time : num) e :
  fst (seekVideo video current time) = Threw e ->
  exists target, snd (seekVideo video current time) = [Seek target].
Proof.
  unfold seekVideo.
  destruct (ltb _ _); [discriminate|].
  destruct (seeked video _); [discriminate|]. intros _. eexists; reflexivity.
Qed.

Lemma progressReports_app (a b : list (Event num)) :
  progressReports (a ++ b) = progressReports a ++ progressReports b.
Proof. unfold progressReports. apply flat_map_app. Qed.

Lemma sampledSteps_app (a b : list (Event num)) :
  sampledSteps (a ++ b) = (sampledSteps a + sampledSteps b)%nat.
Proof. unfold sampledSteps. now rewrite filter_app, length_app. Qed.

(** Loop-invariant reasoning, once and for all: an invariant of the loop
    variables that every pass preserves holds of the variables the loop
    stops with; the run's trace is the events of that state, followed by the
    failed seek when the run threw. *)
Lemma sampleLoop_invariant (video : Video num) (width height : Z) (interval : num)
    (Inv : num -> Z -> LoopState num -> Prop) :
  (forall time i st pos evs,
      Inv time i st ->
      leb time (duration video) = true -> (i <= MAX_SAMPLES)%Z ->
      seekVideo video (position st) time = (Returned pos, evs) ->
      Inv (add time interval) (i + 1)%Z (afterStep video width height time st pos evs)) ->
  forall fuel time i st,
    Inv time i st ->
    let run := sampleLoop fuel video width height interval time i st in
    exists time' i' st' rest,
      Inv time' i' st' /\
      trace run = events st' ++ rest /\
      progressReports rest = [] /\ sampledSteps rest = 0%nat /\
      (forall ds, outcome run = Returned ds ->
         ds = detections st' /\ rest = [] /\
         leb time' (duration video) && (i' <=? MAX_SAMPLES)%Z = false) /\
      (forall e, outcome run = Threw e -> rest <> []).
Proof.
  intros Hstep fuel. induction fuel as [|fuel IH]; intros time i st HI; cbn zeta.
  - exists time, i, st, []. cbn. rewrite app_nil_r.
    repeat split; try discriminate; auto.
  - cbn [sampleLoop].
    destruct (leb time (duration video) && (i <=? MAX_SAMPLES)%Z) eqn:Hguard.
    + apply andb_prop in Hguard as [Ht Hi]. apply Z.leb_le in Hi.
      destruct (seekVideo video (position st) time) as [[pos|e|] evs] eqn:Hseek.
      * apply (IH _ _ _ (Hstep _ _ _ _ _ HI Ht Hi Hseek)).
      * exists time, i, st, evs. cbn.
        pose proof (seekVideo_throws video (position st) time e) as Hthrow.
        rewrite Hseek in Hthrow. destruct (Hthrow eq_refl) as [target Hevs].
        cbn in Hevs. subst evs.
        repeat split; try discriminate; auto.
      * pose proof (seekVideo_settles video (position st) time) as Hs.
        rewrite Hseek in Hs. now contradiction Hs.
    + exists time, i, st, []. cbn. rewrite app_nil_r.
      repeat split; try discriminate; auto; congruence.
Qed.

(** The loop's own condition ends it before the fuel does. *)
Lemma sampleLoop_settles (video : Video num) (width height : Z) (interval : num) :
  forall fuel time i st,
    (Z.to_nat (MAX_SAMPLES + 1 - i) < fuel)%nat ->
    outcome (sampleLoop fuel video width height interval time i st) <> Pending.
Proof.
  induction fuel as [|fuel IH]; intros time i st Hfuel; [lia|].
  cbn [sampleLoop].
  destruct (leb time (duration video) && (i <=? MAX_SAMPLES)%Z) eqn:Hguard.
  - apply andb_prop in Hguard as [_ Hi]. apply Z.leb_le in Hi.
    destruct (seekVideo video (position st) time) as [[pos|e|] evs] eqn:Hseek.
    + apply IH. lia.
    + discriminate.
    + pose proof (seekVideo_settles video (position st) time) as Hs.
      rewrite Hseek in Hs. now contradiction Hs.
  - discriminate.
Qed.

Lemma extractDetections_settles (video : Video num) :
  outcome (extractDetections video) <> Pending.
Proof.
  unfold extractDetections.
  destruct (_ || _); [discriminate|].
  destruct (negb _); [discriminate|].
  apply sampleLoop_settles. cbn. lia.
Qed.

End SamplerLoop.

(** ** The localizer's score and confidence, in exact arithmetic *)

Section VisionExact.
Import Vision.
Open Scope Q_scope.

Lemma ltb_Q (a b : Q) : ltb a b = true <-> a < b.
Proof.
  cbn. rewrite negb_true_iff. split.
  - intros Hf. apply Qnot_le_lt. intros Hle. apply Qle_bool_iff in Hle. congruence.
  - intros Hlt. destruct (Qle_bool b a) eqn:E; [|reflexivity].
    apply Qle_bool_iff in E. exfalso. apply (Qlt_not_le _ _ Hlt E).
Qed.

Lemma ltb_Q_false (a b : Q) : ltb a b = false <-> b <= a.
Proof.
  cbn. rewrite negb_false_iff. apply Qle_bool_iff.
Qed.

Lemma leb_Q (a b : Q) : leb a b = true <-> a <= b.
Proof. cbn. apply Qle_bool_iff. Qed.

Lemma leb_Q_false (a b : Q) : leb a b = false <-> b < a.
Proof.
  cbn. split.
  - intros Hf. apply Qnot_le_lt. intros Hle. apply Qle_bool_iff in Hle. congruence.
  - intros Hlt. destruct (Qle_bool a b) eqn:E; [|reflexivity].
    apply Qle_bool_iff in E. exfalso. apply (Qlt_not_le _ _ Hlt E).
Qed.

Lemma eqb_Q (a b : Q) : eqb a b = true <-> a == b.
Proof. cbn. apply Qeq_bool_iff. Qed.

(** A contour passes the loop's two rejections when its area is at least 15
    and its perimeter is not zero. *)
Lemma qualifies_Q (c : Contour Q) :
  qualifies c = true <-> 15 <= area c /\ ~ perimeter c == 0.
Proof.
  unfold qualifies. rewrite andb_true_iff, !negb_true_iff.
  rewrite ltb_Q_false. split; intros [Ha Hp]; split; auto.
  - intros Hz. apply eqb_Q in Hz. change (fromZ 0) with 0 in Hp. congruence.
  - destruct (eqb (perimeter c) (fromZ 0)) eqn:E; [|reflexivity].
    apply eqb_Q in E. contradiction.
Qed.

(** The scan ends on the largest score among the contours that qualify,
    unless none of them beats the score it started with. *)
Lemma scan_best (cs : list (Contour Q)) :
  forall i best,
    let r := scan cs i best in
    snd best <= snd r /\
    (forall c, In c cs -> qualifies c = true -> score c <= snd r) /\
    (r = best \/
     ((i <= fst r)%Z /\
      exists c, In c cs /\ qualifies c = true /\ snd r = score c)).
Proof.
  induction cs as [|c rest IH]; intros i best; cbn zeta.
  - cbn [scan]. repeat split; [apply Qle_refl | intros c [] | now left].
  - cbn [scan]. destruct (qualifies c) eqn:Hq.
    + destruct (ltb (snd best) (score c)) eqn:Hlt.
      * apply ltb_Q in Hlt.
        destruct (IH (i + 1)%Z (i, score c)) as (Hle & Hall & Hres). cbn [snd] in *.
        split; [|split].
        -- apply Qle_trans with (score c); [apply Qlt_le_weak; exact Hlt | exact Hle].
        -- intros c' [<-|Hin] Hq'; [exact Hle | now apply Hall].
        -- right. destruct Hres as [-> | (Hi & c' & Hin & Hq' & Hs)].
           ++ cbn [fst snd]. split; [lia|]. exists c. repeat split; auto. now left.
           ++ split; [lia|]. exists c'. repeat split; auto. now right.
      * apply ltb_Q_false in Hlt.
        destruct (IH (i + 1)%Z best) as (Hle & Hall & Hres).
        split; [exact Hle|split].
        -- intros c' [<-|Hin] Hq'; [|now apply Hall].
           apply Qle_trans with (snd best); assumption.
        -- destruct Hres as [-> | (Hi & c' & Hin & Hq' & Hs)]; [now left|].
           right. split; [lia|]. exists c'. repeat split; auto. now right.
    + destruct (IH (i + 1)%Z best) as (Hle & Hall & Hres).
      split; [exact Hle|split].
      * intros c' [<-|Hin] Hq'; [congruence | now apply Hall].
      * destruct Hres as [-> | (Hi & c' & Hin & Hq' & Hs)]; [now left|].
        right. split; [lia|]. exists c'. repeat split; auto. now right.
Qed.

Lemma confidence_range (bestScore : Q) :
  0 <= bestScore ->
  0 <= Qmin 1 (bestScore / 1500) <= 1.
Proof.
  intros Hs. split.
  - apply Q.min_glb; [discriminate|].
    apply Qle_shift_div_l; [reflexivity|]. now rewrite Qmult_0_l.
  - apply Q.le_min_l.
Qed.

(** What a returned candidate's confidence is. *)
Lemma detectBallResult_confidence (src : Frame Q) (c : Candidate Q) :
  detectBallResult src = Some c ->
  exists best,
    In best (contours src) /\ qualifies best = true /\
    (forall c', In c' (contours src) -> qualifies c' = true -> score c' <= score best) /\
    confidence c = Qmin 1 (score best / 1500) /\
    0 <= confidence c <= 1.
Proof.
  rewrite detectBallResult_scan.
  destruct (empty src); [discriminate|].
  unfold candidateOf.
  destruct (scan_best (contours src) 0 ((-1)%Z, fromZ 0)) as (Hle & Hall & Hres).
  destruct (scan (contours src) 0 ((-1)%Z, fromZ 0)) as [bestContourIndex bestScore] eqn:Hscan.
  cbn [fst snd] in *.
  destruct (0 <=? bestContourIndex)%Z eqn:Hidx; [|discriminate].
  apply Z.leb_le in Hidx.
  destruct (nth_error _ _) as [chosen|]; [|discriminate].
  destruct (negb _); [|discriminate].
  intros Hc. inversion Hc; subst c; clear Hc. cbn [confidence].
  destruct Hres as [Hsame | (_ & best & Hin & Hq & Hs)].
  - inversion Hsame. lia.
  - exists best. subst bestScore. repeat split; auto.
    + apply confidence_range. exact Hle.
    + apply confidence_range. exact Hle.
Qed.

End VisionExact.
Section SamplerTrace.
Context {num : Type} `{Number num}.
Import Sampler.

Lemma traceInvariant_step (video : Video num) (width height : Z) :
  forall time i st pos evs,
    traceInvariant video time i st ->
    leb time (duration video) = true -> (i <= MAX_SAMPLES)%Z ->
    seekVideo video (position st) time = (Returned pos, evs) ->
    traceInvariant video (add time (sampleInterval video)) (i + 1)%Z
      (afterStep video width height time st pos evs).
Proof.
  intros time i st pos evs (Hi & Ht & Hsteps & Hrep & Hle) Hguard Himax Hseek.
  assert (Hnat : Z.to_nat (i + 1) = S (Z.to_nat i)) by lia.
  assert (Hevs : progressReports evs = [] /\ sampledSteps evs = 0%nat).
  { pose proof (seekVideo_events video (position st) time) as He.
    rewrite Hseek in He. cbn [snd] in He.
    destruct He as [-> | [target ->]]; now split. }
  destruct Hevs as [Hp0 Hs0].
  unfold traceInvariant. rewrite Hnat. cbn [afterStep events].
  split; [lia|]. split; [cbn [timeAt]; now rewrite <- Ht|].
  split; [|split].
  - rewrite !sampledSteps_app, Hsteps, Hs0. cbn. lia.
  - rewrite !progressReports_app, Hrep, Hp0. cbn [app progressReports flat_map].
    rewrite seq_S, map_app. cbn [map Nat.add]. unfold progressAt at 3. now rewrite <- Ht.
  - intros k Hk. destruct (Nat.eq_dec k (Z.to_nat i)) as [->|Hne].
    + now rewrite <- Ht.
    + apply Hle. lia.
Qed.

(** The run's trace, whatever the clip shows and however the run ends: the
    steps are numbered from 0, fewer than [MAX_SAMPLES + 2] of them; step [k]
    is taken at [timeAt k], within the duration, and reports
    [min(1, time / duration)]. *)
Lemma extractDetections_trace (video : Video num) :
  let run := extractDetections video in
  let steps := sampledSteps (trace run) in
  (steps <= Z.to_nat MAX_SAMPLES + 1)%nat /\
  progressReports (trace run) = map (progressAt video) (seq 0 steps) /\
  (forall k, (k < steps)%nat ->
     leb (timeAt (sampleInterval video) k) (duration video) = true) /\
  (forall ds, outcome run = Returned ds ->
     leb (timeAt (sampleInterval video) steps) (duration video)
       && (Z.of_nat steps <=? MAX_SAMPLES)%Z = false).
Proof.
  cbn zeta. unfold extractDetections.
  destruct (_ || _); [cbn; repeat split; try lia; discriminate|].
  destruct (negb _); [cbn; repeat split; try lia; discriminate|].
  destruct (sampleLoop_invariant video (videoWidth video) (videoHeight video)
              (sampleInterval video) (traceInvariant video)
              (traceInvariant_step video _ _)
              (Z.to_nat MAX_SAMPLES + 2) (fromZ 0) 0%Z
              (mkLoopState (currentTime video) [] []))
    as (time' & i' & st' & rest & (Hi & Ht & Hsteps & Hrep & Hle) & Htrace & Hp0 & Hs0 & Hret & _).
  { unfold traceInvariant, MAX_SAMPLES. cbn. repeat split; try lia. }
  cbn zeta in Htrace, Hret. rewrite Htrace.
  rewrite sampledSteps_app, progressReports_app, Hs0, Hp0, Hsteps, Hrep, Nat.add_0_r, app_nil_r.
  split; [unfold MAX_SAMPLES in *; lia|]. split; [reflexivity|]. split; [exact Hle|].
  intros ds Hds. destruct (Hret ds Hds) as (_ & _ & Hexit).
  rewrite Z2Nat.id by lia. now rewrite <- Ht.
Qed.

End SamplerTrace.

Section SamplerExact.
Import Sampler.
Open Scope Q_scope.

Lemma sampleInterval_floor (video : Video Q) : 8 / 100 <= sampleInterval video.
Proof. unfold sampleInterval. apply Q.le_max_l. Qed.

Lemma sampleInterval_positive (video : Video Q) : 0 < sampleInterval video.
Proof.
  apply Qlt_le_trans with (8 / 100); [reflexivity | apply sampleInterval_floor].
Qed.

Lemma detectionsInvariant_step (video : Video Q) :
  forall time i st pos evs,
    detectionsInvariant video time i st ->
    leb time (duration video) = true -> (i <= MAX_SAMPLES)%Z ->
    seekVideo video (position st) time = (Returned pos, evs) ->
    detectionsInvariant video (add time (sampleInterval video)) (i + 1)%Z
      (afterStep video (videoWidth video) (videoHeight video) time st pos evs).
Proof.
  intros time i st pos evs (Hbelow & Hinc & Hnorm & Hlen) _ _ _.
  pose proof (sampleInterval_positive video) as Hpos.
  assert (Hnext : time < time + sampleInterval video).
  { rewrite <- (Qplus_0_r time) at 1. apply Qplus_lt_r. exact Hpos. }
  unfold detectionsInvariant, afterStep. cbn [detections events add Number_Q].
  assert (Hsteps : (sampledSteps (events st) <
             sampledSteps (events st ++ evs ++
               [Draw pos; Progress (min (fromZ 1) (div time (duration video)))]))%nat).
  { rewrite !sampledSteps_app. cbn. lia. }
  destruct (Vision.detectBallResult (picture video pos)) as [d|] eqn:Hdet.
  - pose proof (detectBallResult_confidence _ _ Hdet) as (_ & _ & _ & _ & _ & Hconf).
    split; [|split; [|split]].
    + intros d' Hin. apply in_app_or in Hin as [Hin | [<- | []]].
      * apply Qlt_trans with time; auto.
      * exact Hnext.
    + intros k d1 d2 H1 H2.
      destruct (Nat.lt_ge_cases (S k) (List.length (detections st))) as [Hk | Hk].
      * rewrite nth_error_app1 in H1 by lia. rewrite nth_error_app1 in H2 by lia.
        eapply Hinc; eauto.
      * rewrite nth_error_app2 in H2 by lia.
        destruct (S k - List.length (detections st))%nat as [|m] eqn:Hm.
        -- cbn in H2. inversion H2; subst d2; clear H2. cbn [DetectionPoint.time].
           rewrite nth_error_app1 in H1 by lia.
           apply Hbelow. eapply nth_error_In; eauto.
        -- cbn in H2. now destruct m.
    + intros d' Hin. apply in_app_or in Hin as [Hin | [<- | []]]; [now apply Hnorm|].
      cbn. repeat split; apply Hconf.
    + rewrite length_app. cbn [List.length]. lia.
  - split; [|split; [|split]]; auto.
    + intros d' Hin. apply Qlt_trans with time; auto.
    + lia.
Qed.

Lemma extractDetections_detections (video : Video Q) (ds : list (DetectionPoint.t Q)) :
  outcome (extractDetections video) = Returned ds ->
  (forall k d1 d2,
      nth_error ds k = Some d1 -> nth_error ds (S k) = Some d2 ->
      DetectionPoint.time d1 < DetectionPoint.time d2) /\
  (forall d, In d ds ->
      DetectionPoint.normX d = DetectionPoint.x d / inject_Z (videoWidth video) /\
      DetectionPoint.normY d = DetectionPoint.y d / inject_Z (videoHeight video) /\
      0 <= DetectionPoint.confidence d <= 1) /\
  (List.length ds <= sampledSteps (trace (extractDetections video)))%nat.
Proof.
  unfold extractDetections.
  destruct (_ || _); [discriminate|].
  destruct (negb _); [discriminate|].
  destruct (sampleLoop_invariant video (videoWidth video) (videoHeight video)
              (sampleInterval video) (detectionsInvariant video)
              (detectionsInvariant_step video)
              (Z.to_nat MAX_SAMPLES + 2) (fromZ 0) 0%Z
              (mkLoopState (currentTime video) [] []))
    as (time' & i' & st' & rest & (Hbelow & Hinc & Hnorm & Hlen) & Htrace & _ & _ & Hret & _).
  { unfold detectionsInvariant. cbn. repeat split; try contradiction; try lia.
    all: intros k; destruct k; discriminate. }
  cbn zeta in Htrace, Hret. intros Hds.
  destruct (Hret ds Hds) as (-> & -> & _). rewrite Htrace, app_nil_r.
  repeat split; auto; now apply Hnorm.
Qed.


Lemma timeAt_nonneg (video : Video Q) (k : nat) :
  0 <= timeAt (sampleInterval video) k.
Proof.
  induction k as [|k IH]; cbn [timeAt]; [discriminate|].
  cbn [add Number_Q]. rewrite <- (Qplus_0_r 0).
  apply Qplus_le_compat; [exact IH | apply Qlt_le_weak, sampleInterval_positive].
Qed.

Lemma timeAt_increasing (video : Video Q) (i j : nat) :
  (i <= j)%nat -> timeAt (sampleInterval video) i <= timeAt (sampleInterval video) j.
Proof.
  induction 1 as [|j _ IH]; [apply Qle_refl|].
  cbn [timeAt add Number_Q].
  apply Qle_trans with (timeAt (sampleInterval video) j); [exact IH|].
  rewrite <- (Qplus_0_r (timeAt _ j)) at 1.
  apply Qplus_le_r, Qlt_le_weak, sampleInterval_positive.
Qed.

Lemma progressAt_increasing (video : Video Q) (i j : nat) :
  0 < duration video -> (i <= j)%nat ->
  progressAt video i <= progressAt video j.
Proof.
  intros Hd Hij. unfold progressAt. cbn [min div fromZ Number_Q].
  apply Q.min_le_compat_l. unfold Qdiv.
  apply Qmult_le_compat_r; [now apply timeAt_increasing|].
  apply Qinv_le_0_compat, Qlt_le_weak, Hd.
Qed.

Lemma progressAt_range (video : Video Q) (k : nat) :
  0 < duration video -> 0 <= progressAt video k <= 1.
Proof.
  intros Hd. unfold progressAt. cbn [min div fromZ Number_Q]. split.
  - apply Q.min_glb; [discriminate|].
    apply Qle_shift_div_l; [exact Hd|]. rewrite Qmult_0_l. apply timeAt_nonneg.
  - apply Q.le_min_l.
Qed.

(** A step taken at a time within the duration reports [1] just when that
    time is the duration. *)
Lemma progressAt_one (video : Video Q) (k : nat) :
  0 < duration video ->
  timeAt (sampleInterval video) k <= duration video ->
  (progressAt video k == 1 <-> timeAt (sampleInterval video) k == duration video).
Proof.
  intros Hd Hle. unfold progressAt. cbn [min div fromZ Number_Q].
  set (t := timeAt (sampleInterval video) k) in *.
  assert (Hq : t / duration video <= 1).
  { apply Qle_shift_div_r; [exact Hd|]. now rewrite Qmult_1_l. }
  rewrite (Q.min_r _ _ Hq).
  assert (Hne : ~ duration video == 0).
  { intros Hz. rewrite Hz in Hd. discriminate. }
  split; intros Heq.
  - rewrite <- (Qmult_div_r t (duration video)) by exact Hne.
    rewrite Heq. apply Qmult_1_r.
  - rewrite Heq. now apply Qmult_inv_r.
Qed.

Lemma nth_error_map_seq {A : Type} (f : nat -> A) (n : nat) :
  forall a i x, nth_error (map f (seq a n)) i = Some x -> x = f (a + i)%nat /\ (i < n)%nat.
Proof.
  induction n as [|n IH]; intros a i x Hx; [now destruct i|].
  destruct i as [|i]; cbn in Hx.
  - inversion Hx. rewrite Nat.add_0_r. split; [reflexivity|lia].
  - apply IH in Hx as [-> Hi]. split; [f_equal; lia|lia].
Qed.

Lemma last_map_seq {A : Type} (f : nat -> A) (n : nat) (d : A) :
  last (map f (seq 0 (S n))) d = f n.
Proof.
  rewrite seq_S, map_app. cbn [map Nat.add]. apply last_last.
Qed.

End SamplerExact.

(** ** The localizer: release of handles (C3) and confidence (C6) *)

Section LocalizerClaims.
Import Vision.

(** For every frame whose matrix is not empty, the handles still live when
    [detectBall] returns are as many as the contours the loop rejected. *)
Lemma leaked_count {num : Type} `{Number num} (src : Frame num) :
  List.length (leaked src) =
  if empty src then 0%nat
  else List.length (filter (fun c => negb (qualifies c)) (contours src)).
Proof.
  rewrite leaked_strays. destruct (empty src); [reflexivity|]. apply strays_length.
Qed.

(** On the early exit and when no contour is rejected, nothing stays
    behind. *)
Lemma detectBall_releases_without_rejection {num : Type} `{Number num} (src : Frame num) :
  empty src = true \/ forallb qualifies (contours src) = true ->
  Claims.releasesEverything src.
Proof.
  intros Hsrc. unfold Claims.releasesEverything. apply length_zero_iff_nil.
  rewrite leaked_count. destruct (empty src); [reflexivity|].
  destruct Hsrc as [Hempty | Hall]; [discriminate|].
  induction (contours src) as [|c rest IH]; [reflexivity|].
  cbn in Hall |- *. apply andb_prop in Hall as [-> Hrest]. now apply IH.
Qed.

(** C3 (the code breaks the claim).  A frame whose mask holds one 4-pixel
    speck: the contour handle obtained from [contours.get(0)] is rejected by
    the area test, the [continue] skips its [delete], and the handle is still
    live when [detectBall] returns, in exact and in binary64 arithmetic.  The
    same holds of a contour rejected for its zero perimeter; in every frame
    one handle stays behind for each rejected contour. *)
Theorem detectBall_leaks_rejected_contours :
  leaked (Scenarios.speckFrame (num := Q)) = [mkHandle 15 "contour"] /\
  leaked (Scenarios.speckFrame (num := float)) = [mkHandle 15 "contour"] /\
  leaked (Scenarios.threadFrame (num := Q)) = [mkHandle 15 "contour"] /\
  ~ Claims.releasesEverything (Scenarios.speckFrame (num := Q)) /\
  (forall (src : Frame Q),
      List.length (leaked src) =
      if empty src then 0%nat
      else List.length (filter (fun c => negb (qualifies c)) (contours src))).
Proof.
  split; [vm_compute; reflexivity|].
  split; [vm_compute; reflexivity|].
  split; [vm_compute; reflexivity|].
  split; [|intros src; apply leaked_count].
  unfold Claims.releasesEverything. vm_compute. discriminate.
Qed.

Open Scope Q_scope.

(** C6.  In exact arithmetic: whenever [detectBall] returns a candidate, some
    contour [best] with area at least 15 and nonzero perimeter has the
    largest score ([circularity * area], circularity being
    [4 * PI * area / perimeter^2]) among the contours with area at least 15
    and nonzero perimeter, and the candidate's confidence is
    [min(1, score best / 1500)], a value in [0, 1]; and every detection
    point of a completed sampling run has its confidence in [0, 1]. *)
Theorem detectBall_confidence :
  (forall (src : Frame Q) (c : Candidate Q),
      detectBallResult src = Some c ->
      exists best,
        In best (contours src) /\
        15 <= area best /\ ~ perimeter best == 0 /\
        score best =
          (4 * PI * area best) / (perimeter best * perimeter best) * area best /\
        (forall c', In c' (contours src) ->
                    15 <= area c' -> ~ perimeter c' == 0 ->
                    score c' <= score best) /\
        confidence c = Qmin 1 (score best / 1500) /\
        0 <= confidence c <= 1) /\
  (forall (video : Sampler.Video Q) ds d,
      Sampler.outcome (Sampler.extractDetections video) = Returned ds ->
      In d ds ->
      0 <= DetectionPoint.confidence d <= 1).
Proof.
  split.
  - intros src c Hc.
    destruct (detectBallResult_confidence src c Hc) as (best & Hin & Hq & Hmax & Hconf & Hrange).
    exists best. apply qualifies_Q in Hq as [Ha Hp].
    repeat split; auto; try apply Hrange.
    intros c' Hin' Ha' Hp'. apply Hmax; [exact Hin'|]. now apply qualifies_Q.
  - intros video ds d Hds Hin.
    destruct (extractDetections_detections video ds Hds) as (_ & Hnorm & _).
    now apply Hnorm.
Qed.

Lemma detectBall_confidence_witness :
  exists c, detectBallResult (Scenarios.ballFrame (num := Q)) = Some c /\
            0 <= confidence c <= 1.
Proof.
  eexists. split; [vm_compute; reflexivity|].
  destruct (proj1 detectBall_confidence (@Scenarios.ballFrame Q Number_Q) _
              ltac:(vm_compute; reflexivity))
    as (best & _ & _ & _ & _ & _ & _ & Hrange).
  exact Hrange.
Defined.

End LocalizerClaims.

(** ** The sampler: steps (C2), progress (C1), order (C7), precondition (C5) *)

Section SamplerClaims.
Import Sampler.

(** No run draws more than [MAX_SAMPLES + 1] frames, in any arithmetic. *)
Lemma extractDetections_steps_bound {num : Type} `{Number num} (video : Video num) :
  (sampledSteps (trace (extractDetections video)) <= 321)%nat.
Proof. apply (extractDetections_trace video). Qed.

(** A 2.0 s clip is sampled at the 0.08 s floor: 26 steps in exact
    arithmetic, where the 26th falls on the duration, and 25 in binary64,
    where the 26th time adds up to 2.0000000000000004. *)
Lemma two_second_clip_steps :
  sampleInterval (Scenarios.clip (num := Q) 200 Scenarios.blankFrame) == 8 # 100 /\
  sampledSteps (trace (extractDetections
    (Scenarios.clip (num := Q) 200 Scenarios.blankFrame))) = 26%nat /\
  sampledSteps (trace (extractDetections
    (Scenarios.clip (num := float) 200 Scenarios.blankFrame))) = 25%nat /\
  timeAt (sampleInterval (Scenarios.clip (num := float) 200 Scenarios.blankFrame)) 25
    = 2.0000000000000004%float.
Proof. repeat split; vm_compute; reflexivity. Qed.

Lemma timeAt_multiple (video : Video Q) (k : nat) :
  timeAt (sampleInterval video) k == inject_Z (Z.of_nat k) * sampleInterval video.
Proof.
  induction k as [|k IH]; cbn [timeAt]; [cbn; ring|].
  cbn [add Number_Q]. rewrite IH, Nat2Z.inj_succ. unfold Z.succ.
  rewrite inject_Z_plus. ring.
Qed.

(** In exact arithmetic every completed run on a clip of 25.6 s or more
    draws 321 frames. *)
Lemma long_clip_steps (video : Video Q) ds :
  256 # 10 <= duration video ->
  outcome (extractDetections video) = Returned ds ->
  sampledSteps (trace (extractDetections video)) = 321%nat.
Proof.
  intros Hlong Hds.
  destruct (extractDetections_trace video) as (Hbound & _ & _ & Hexit).
  specialize (Hexit ds Hds). cbn zeta in *.
  set (steps := sampledSteps (trace (extractDetections video))) in *.
  destruct (Nat.eq_dec steps 321) as [|Hne]; [assumption|exfalso].
  assert (Hlt : (steps <= 320)%nat) by (unfold MAX_SAMPLES in Hbound; lia).
  apply andb_false_iff in Hexit as [Htime | Hidx].
  - apply leb_Q_false in Htime. rewrite timeAt_multiple in Htime.
    assert (Hint : sampleInterval video == duration video / 320).
    { unfold sampleInterval. apply Q.max_r.
      apply Qle_shift_div_l; [reflexivity|].
      apply Qle_trans with (256 # 10); [discriminate | exact Hlong]. }
    rewrite Hint in Htime.
    assert (Hk : inject_Z (Z.of_nat steps) <= 320).
    { change 320 with (inject_Z 320). rewrite <- Zle_Qle. lia. }
    assert (Hd : 0 <= duration video).
    { apply Qle_trans with (256 # 10); [discriminate | exact Hlong]. }
    apply (Qlt_not_le _ _ Htime).
    setoid_replace (inject_Z (Z.of_nat steps) * (duration video / 320))
      with (inject_Z (Z.of_nat steps) / 320 * duration video) by field.
    rewrite <- (Qmult_1_l (duration video)) at 2.
    apply Qmult_le_compat_r; [|exact Hd].
    apply Qle_shift_div_r; [reflexivity|]. now rewrite Qmult_1_l.
  - apply Z.leb_gt in Hidx. unfold MAX_SAMPLES in Hidx. lia.
Qed.

(** A clip whose every seek is answered by [seeked] is sampled to the end. *)
Lemma sampleLoop_returns {num : Type} `{Number num} (video : Video num)
    (width height : Z) (interval : num) :
  (forall t, seeked video t = true) ->
  forall fuel time i st e,
    outcome (sampleLoop fuel video width height interval time i st) <> Threw e.
Proof.
  intros Hseek. induction fuel as [|fuel IH]; intros time i st e; [discriminate|].
  cbn [sampleLoop]. destruct (_ && _); [|discriminate].
  unfold seekVideo. destruct (ltb _ _); [apply IH|].
  rewrite Hseek. apply IH.
Qed.

Lemma extractDetections_returns {num : Type} `{Number num} (video : Video num) :
  (forall t, seeked video t = true) ->
  videoWidth video <> 0%Z -> videoHeight video <> 0%Z -> hasContext2d video = true ->
  exists ds, outcome (extractDetections video) = Returned ds.
Proof.
  intros Hseek Hw Hh Hctx.
  pose proof (extractDetections_settles video) as Hsettle.
  unfold extractDetections in *.
  apply Z.eqb_neq in Hw, Hh. rewrite Hw, Hh, Hctx in *. cbn [orb negb] in *.
  destruct (outcome _) as [ds|e|] eqn:Hout.
  - now exists ds.
  - exfalso. eapply sampleLoop_returns; eauto.
  - contradiction.
Qed.

(** C2 (as stated, refuted).  A 320 s clip: the interval is
    [max(0.08, 320 / 320) = 1], the loop condition [sampleIndex <= MAX_SAMPLES]
    lets the index run from 0 to 320, and the run draws 321 frames, one more
    than [MAX_SAMPLES], in exact and in binary64 arithmetic. *)
Theorem extractDetections_exceeds_MAX_SAMPLES :
  sampledSteps (trace (extractDetections
    (Scenarios.clip (num := Q) 32000 Scenarios.blankFrame))) = 321%nat /\
  sampledSteps (trace (extractDetections
    (Scenarios.clip (num := float) 32000 Scenarios.blankFrame))) = 321%nat /\
  ~ Claims.atMostMaxSamples (Scenarios.clip (num := float) 32000 Scenarios.blankFrame).
Proof.
  assert (Hfloat : sampledSteps (trace (extractDetections
            (Scenarios.clip (num := float) 32000 Scenarios.blankFrame))) = 321%nat)
    by (vm_compute; reflexivity).
  split; [|split; [exact Hfloat|]].
  - destruct (extractDetections_returns
                (Scenarios.clip (num := Q) 32000 Scenarios.blankFrame))
      as [ds Hds].
    + reflexivity.
    + cbn. discriminate.
    + cbn. discriminate.
    + reflexivity.
    + apply (long_clip_steps _ ds); [|exact Hds].
      cbn. discriminate.
  - unfold Claims.atMostMaxSamples. rewrite Hfloat. unfold MAX_SAMPLES. lia.
Qed.

(** C2 (as the code has it).  In any arithmetic, exact or binary64, and for
    every clip: the sampling interval is [max(0.08, duration / 320)]; a run
    takes at most 321 sampled steps, [MAX_SAMPLES + 1]; the step of index [k]
    is taken at the time [0 + interval + ... + interval] ([k] additions) and
    only with [time <= duration] and [k <= MAX_SAMPLES], the bound on the
    index being inclusive; and a run that returns has stopped at the first
    index whose time fails [time <= duration], or at index 321.  In exact
    arithmetic the time of step [k] is [k * interval].  A 2.0 s clip is
    sampled at the 0.08 s floor and takes no more than 26 steps: 26 in exact
    arithmetic, 25 in binary64. *)
Theorem sampling_steps_bound :
  (forall (num : Type) (N : Number num) (video : Video num),
      let run := extractDetections video in
      let steps := sampledSteps (trace run) in
      sampleInterval video =
        max (decimal 8 100) (div (duration video) (fromZ MAX_SAMPLES)) /\
      (steps <= 321)%nat /\
      (forall k, (k < steps)%nat ->
         (Z.of_nat k <= MAX_SAMPLES)%Z /\
         leb (timeAt (sampleInterval video) k) (duration video) = true) /\
      (forall ds, outcome run = Returned ds ->
         leb (timeAt (sampleInterval video) steps) (duration video) = false \/
         steps = 321%nat)) /\
  (forall (video : Video Q) (k : nat),
      timeAt (sampleInterval video) k == inject_Z (Z.of_nat k) * sampleInterval video) /\
  sampleInterval (Scenarios.clip (num := Q) 200 Scenarios.blankFrame) == 8 # 100 /\
  sampledSteps (trace (extractDetections
    (Scenarios.clip (num := Q) 200 Scenarios.blankFrame))) = 26%nat /\
  sampledSteps (trace (extractDetections
    (Scenarios.clip (num := float) 200 Scenarios.blankFrame))) = 25%nat.
Proof.
  split; [|split; [exact timeAt_multiple|]].
  - intros num N video. cbn zeta.
    destruct (extractDetections_trace video) as (Hbound & _ & Hle & Hexit).
    cbn zeta in *. unfold MAX_SAMPLES in *.
    split; [reflexivity|]. split; [exact Hbound|]. split.
    + intros k Hk. split; [lia | now apply Hle].
    + intros ds Hds. specialize (Hexit ds Hds).
      apply andb_false_iff in Hexit as [Htime | Hidx]; [now left | right].
      apply Z.leb_gt in Hidx. lia.
  - destruct two_second_clip_steps as (Hint & Hq & Hf & _).
    split; [exact Hint|]. split; [exact Hq | exact Hf].
Qed.



Open Scope Q_scope.

(** C1 (as the code has it).  In exact arithmetic, for every clip of
    positive duration whose run completes: the values handed to [onProgress]
    are [min(1, time / duration)] for the times [0, interval, 2 * interval,
    ...] of the sampled steps, one per step whatever the step detected; there
    is at least one; they never decrease; each lies in [0, 1]; and the last
    one is 1 exactly when the last sampled time is the duration itself. *)
Theorem progress_reports_of_completed_run (video : Video Q) ds :
  0 < duration video ->
  outcome (extractDetections video) = Returned ds ->
  let reports := progressReports (trace (extractDetections video)) in
  let steps := sampledSteps (trace (extractDetections video)) in
  reports =
    map (fun k => Qmin 1 (timeAt (sampleInterval video) k / duration video))
        (seq 0 steps) /\
  (1 <= steps)%nat /\
  (forall i j pi pj, (i <= j)%nat ->
      nth_error reports i = Some pi -> nth_error reports j = Some pj ->
      pi <= pj) /\
  (forall p, In p reports -> 0 <= p <= 1) /\
  (last reports 0 == 1 <->
   timeAt (sampleInterval video) (steps - 1) == duration video).
Proof.
  intros Hd Hds. cbn zeta.
  destruct (extractDetections_trace video) as (_ & Hrep & Hle & Hexit).
  specialize (Hexit ds Hds). cbn zeta in *.
  set (steps := sampledSteps (trace (extractDetections video))) in *.
  rewrite Hrep.
  assert (Hsteps : (1 <= steps)%nat).
  { destruct steps as [|n]; [exfalso|lia].
    cbn in Hexit. apply andb_false_iff in Hexit as [Ht|Hi]; [|discriminate].
    apply leb_Q_false in Ht. apply (Qlt_irrefl 0). now apply Qlt_trans with (duration video). }
  split; [reflexivity|]. split; [exact Hsteps|]. split; [|split].
  - intros i j pi pj Hij Hi Hj.
    apply nth_error_map_seq in Hi as [-> _]. apply nth_error_map_seq in Hj as [-> _].
    cbn [Nat.add]. now apply progressAt_increasing.
  - intros p Hin. apply in_map_iff in Hin as (k & <- & _). now apply progressAt_range.
  - destruct steps as [|n]; [lia|].
    rewrite last_map_seq. replace (S n - 1)%nat with n by lia.
    apply progressAt_one; [exact Hd|].
    apply leb_Q. apply Hle. lia.
Qed.

Lemma progress_reports_of_completed_run_witness :
  last (progressReports (trace (extractDetections
          (Scenarios.clip (num := Q) 100 Scenarios.ballFrame)))) 0 == 1 <->
  timeAt (sampleInterval (Scenarios.clip (num := Q) 100 Scenarios.ballFrame))
    (sampledSteps (trace (extractDetections
       (Scenarios.clip (num := Q) 100 Scenarios.ballFrame))) - 1)
  == duration (Scenarios.clip (num := Q) 100 Scenarios.ballFrame).
Proof.
  destruct (extractDetections_returns
              (@Scenarios.clip Q Number_Q 100 Scenarios.ballFrame))
    as [ds Hds].
  - reflexivity.
  - cbn. discriminate.
  - cbn. discriminate.
  - reflexivity.
  - apply (progress_reports_of_completed_run
             (@Scenarios.clip Q Number_Q 100 Scenarios.ballFrame) ds);
      [reflexivity | exact Hds].
Defined.

(** C1 (as stated, refuted).  A 1.0 s clip is sampled at 0, 0.08, ..., 0.96;
    the next time, 1.04, is past the duration, so the last value handed to
    [onProgress] is 0.96 (24/25 in exact arithmetic, 0.95999999999999985 in
    binary64), not 1.  For the 2.0 s clip of the spec's example binary64
    arithmetic stops after 25 steps with 0.9600000000000003, the 26th time
    having added up to a little more than 2. *)
Lemma final_progress_below_one :
  ~ Claims.finalProgressIsOne (Scenarios.clip (num := Q) 100 Scenarios.blankFrame) /\
  last (progressReports (trace (extractDetections
          (Scenarios.clip (num := Q) 100 Scenarios.blankFrame)))) 0 == 24 # 25 /\
  ~ Claims.finalProgressIsOne (Scenarios.clip (num := float) 100 Scenarios.blankFrame) /\
  ~ Claims.finalProgressIsOne (Scenarios.clip (num := float) 200 Scenarios.blankFrame) /\
  last (progressReports (trace (extractDetections
          (Scenarios.clip (num := float) 200 Scenarios.blankFrame)))) 0%float
    = 0.9600000000000003%float.
Proof.
  split; [|split; [|split; [|split]]].
  - intros Hclaim. specialize (Hclaim [] ltac:(vm_compute; reflexivity)).
    vm_compute in Hclaim. discriminate.
  - vm_compute. reflexivity.
  - intros Hclaim. specialize (Hclaim [] ltac:(vm_compute; reflexivity)).
    vm_compute in Hclaim. discriminate.
  - intros Hclaim. specialize (Hclaim [] ltac:(vm_compute; reflexivity)).
    vm_compute in Hclaim. discriminate.
  - vm_compute. reflexivity.
Qed.

End SamplerClaims.

(** ** The detection sequence (C7) and the precondition (C5) *)

Section SequenceClaims.
Import Sampler.
Open Scope Q_scope.

(** C7.  In exact arithmetic, for every completed sampling run: of any two
    consecutive detection points the later has the strictly greater time;
    there are no more detection points than sampled steps (at most one is
    pushed per step); the sampling interval is at least 0.08 s; and every
    point has [normX = x / width] and [normY = y / height]. *)
Theorem detections_strictly_increasing (video : Video Q) ds :
  outcome (extractDetections video) = Returned ds ->
  (forall k d1 d2,
      nth_error ds k = Some d1 -> nth_error ds (S k) = Some d2 ->
      DetectionPoint.time d1 < DetectionPoint.time d2) /\
  (List.length ds <= sampledSteps (trace (extractDetections video)))%nat /\
  8 / 100 <= sampleInterval video /\
  (forall d, In d ds ->
      DetectionPoint.normX d = DetectionPoint.x d / inject_Z (videoWidth video) /\
      DetectionPoint.normY d = DetectionPoint.y d / inject_Z (videoHeight video)).
Proof.
  intros Hds.
  destruct (extractDetections_detections video ds Hds) as (Hinc & Hnorm & Hlen).
  split; [exact Hinc|]. split; [exact Hlen|]. split; [apply sampleInterval_floor|].
  intros d Hin. destruct (Hnorm d Hin) as (Hx & Hy & _). now split.
Qed.

Lemma detections_strictly_increasing_witness :
  exists ds,
    outcome (extractDetections (Scenarios.clip (num := Q) 100 Scenarios.ballFrame))
      = Returned ds /\
    List.length ds = 13%nat /\
    (forall k d1 d2,
        nth_error ds k = Some d1 -> nth_error ds (S k) = Some d2 ->
        DetectionPoint.time d1 < DetectionPoint.time d2).
Proof.
  eexists. split; [vm_compute; reflexivity|]. split; [reflexivity|].
  match goal with
  | |- forall k d1 d2, nth_error ?ds k = _ -> _ =>
      assert (Hrun : outcome (extractDetections
                        (@Scenarios.clip Q Number_Q 100 Scenarios.ballFrame))
                     = Returned ds) by (vm_compute; reflexivity);
      exact (proj1 (detections_strictly_increasing _ ds Hrun))
  end.
Defined.

End SequenceClaims.

Section PreconditionClaims.
Context {num : Type} `{Number num}.
Import Sampler.

(** The only error the loop throws is the failed seek's. *)
Lemma sampleLoop_throws (video : Video num) (width height : Z) (interval : num) :
  forall fuel time i st e,
    outcome (sampleLoop fuel video width height interval time i st) = Threw e ->
    e = ErrorObject seekMessage.
Proof.
  induction fuel as [|fuel IH]; intros time i st e; [discriminate|].
  cbn [sampleLoop]. destruct (_ && _); [|discriminate].
  unfold seekVideo. destruct (ltb _ _); [apply IH|].
  destruct (seeked video _); [apply IH|].
  cbn. intros He. now inversion He.
Qed.

(** A run that threw inside the loop had asked for a seek. *)
Lemma sampleLoop_throws_after_seek (video : Video num) (width height : Z)
    (interval : num) :
  forall fuel time i st e,
    outcome (sampleLoop fuel video width height interval time i st) = Threw e ->
    trace (sampleLoop fuel video width height interval time i st) <> [].
Proof.
  intros fuel time i st e He.
  destruct (sampleLoop_invariant video width height interval (fun _ _ _ => True)
              (fun _ _ _ _ _ _ _ _ _ => I) fuel time i st I)
    as (_ & _ & st' & rest & _ & Htrace & _ & _ & _ & Hthrew).
  cbn zeta in Htrace, Hthrew. rewrite Htrace.
  specialize (Hthrew e He). intros Hnil. apply app_eq_nil in Hnil. tauto.
Qed.

(** C5 (as the code has it).  [extractDetections] throws before any sampling
    step exactly when the intrinsic width or height is zero or no 2D context
    can be had; the error it throws is the "Video dimensions unavailable"
    one exactly when the width or height is zero, and then nothing was
    sought, drawn or reported; and [handleAnalyze] ends such a run with that
    message as the error and the analyzing flag down, having called
    [extractDetections] once. *)
Theorem extractDetections_precondition :
  (forall video : Video num,
      Claims.throwsBeforeSampling video <->
      Claims.dimensionsUnavailable video \/ hasContext2d video = false) /\
  (forall video : Video num,
      outcome (extractDetections video) = Threw (ErrorObject dimensionsMessage) <->
      Claims.dimensionsUnavailable video) /\
  (forall video : Video num,
      Claims.dimensionsUnavailable video ->
      extractDetections video = mkRun (Threw (ErrorObject dimensionsMessage)) []) /\
  (forall convert now (s : Analyzer.State num) video,
      Analyzer.videoRef s = Some video -> Analyzer.cvReady s = true ->
      Claims.dimensionsUnavailable video ->
      Analyzer.handleAnalyze convert now s =
      Analyzer.setAnalyzing false
        (Analyzer.setError (Some dimensionsMessage)
           (Analyzer.setProgress (fromZ 0)
              (Analyzer.setError None (Analyzer.setAnalyzing true s))))).
Proof.
  assert (Hdims : forall video : Video num,
             Claims.dimensionsUnavailable video ->
             extractDetections video = mkRun (Threw (ErrorObject dimensionsMessage)) []).
  { intros video [Hw | Hh]; unfold extractDetections.
    - now rewrite Hw.
    - rewrite Hh. cbn. now rewrite orb_true_r. }
  assert (Havail : forall video : Video num,
             ~ Claims.dimensionsUnavailable video ->
             ((videoWidth video =? 0)%Z || (videoHeight video =? 0)%Z) = false).
  { intros video Hn. apply orb_false_iff. unfold Claims.dimensionsUnavailable in Hn.
    split; apply Z.eqb_neq; tauto. }
  assert (Hdec : forall video : Video num,
             Claims.dimensionsUnavailable video \/ ~ Claims.dimensionsUnavailable video).
  { intros video. unfold Claims.dimensionsUnavailable.
    destruct (Z.eq_dec (videoWidth video) 0); [tauto|].
    destruct (Z.eq_dec (videoHeight video) 0); tauto. }
  split; [|split; [|split]].
  - intros video. split.
    + intros [message Hrun].
      destruct (Hdec video) as [Hd | Hn]; [now left|right].
      destruct (hasContext2d video) eqn:Hctx; [exfalso|reflexivity].
      unfold extractDetections in Hrun. rewrite (Havail video Hn), Hctx in Hrun.
      cbn [negb] in Hrun.
      apply (f_equal outcome) in Hrun as Hout. apply (f_equal trace) in Hrun.
      cbn [outcome trace] in Hout, Hrun.
      exact (sampleLoop_throws_after_seek _ _ _ _ _ _ _ _ _ Hout Hrun).
    + intros [Hd | Hctx].
      * exists dimensionsMessage. now apply Hdims.
      * destruct (Hdec video) as [Hd | Hn].
        -- exists dimensionsMessage. now apply Hdims.
        -- exists surfaceMessage. unfold extractDetections.
           now rewrite (Havail video Hn), Hctx.
  - intros video. split.
    + intros Hout. destruct (Hdec video) as [Hd | Hn]; [exact Hd|exfalso].
      unfold extractDetections in Hout. rewrite (Havail video Hn) in Hout.
      destruct (hasContext2d video); cbn [negb] in Hout.
      * apply sampleLoop_throws in Hout. inversion Hout.
      * inversion Hout.
    + intros Hd. now rewrite (Hdims video Hd).
  - exact Hdims.
  - intros convert now s video Href Hcv Hd.
    unfold Analyzer.handleAnalyze, Analyzer.tryBlock.
    rewrite Href, Hcv. cbn [negb]. rewrite (Hdims video Hd). reflexivity.
Qed.

End PreconditionClaims.

(** C5 (as stated, refuted).  A 640x480 clip on a page where
    [canvas.getContext('2d')] yields nothing: [extractDetections] throws
    "Unable to create analysis surface." before any sampling step, although
    width and height are both there. *)
Lemma throws_before_sampling_with_dimensions :
  Claims.throwsBeforeSampling (Scenarios.clipWithoutContext (num := Q) 200) /\
  ~ Claims.dimensionsUnavailable (Scenarios.clipWithoutContext (num := Q) 200) /\
  Sampler.extractDetections (Scenarios.clipWithoutContext (num := Q) 200) =
    Sampler.mkRun (Threw (ErrorObject Sampler.surfaceMessage)) [].
Proof.
  split; [|split].
  - exists Sampler.surfaceMessage. reflexivity.
  - intros [Hw | Hh]; discriminate.
  - reflexivity.
Qed.

Lemma extractDetections_precondition_witness :
  Analyzer.handleAnalyze (fun _ => Returned []) 0%Z
    (Scenarios.analysed (Scenarios.clipWithoutWidth (num := Q) 200)) =
  Analyzer.setAnalyzing false
    (Analyzer.setError (Some Sampler.dimensionsMessage)
       (Analyzer.setProgress (fromZ 0)
          (Analyzer.setError None
             (Analyzer.setAnalyzing true
                (Scenarios.analysed (Scenarios.clipWithoutWidth (num := Q) 200)))))).
Proof.
  apply (proj2 (proj2 (proj2 (@extractDetections_precondition Q Number_Q)))
           (fun _ => Returned []) 0%Z
           (Scenarios.analysed (Scenarios.clipWithoutWidth 200))
           (Scenarios.clipWithoutWidth 200)).
  - reflexivity.
  - reflexivity.
  - left. reflexivity.
Defined.

(** ** The analysis run: empty result (C4) and commit (C10) *)

Section AnalyzerClaims.
Context {num : Type} `{Number num}.
Import Analyzer.

(** Reporting progress touches the progress field only. *)
Lemma reportProgress_fields (evs : list (Sampler.Event num)) (s : State num) :
  let s' := reportProgress evs s in
  file s' = file s /\ videoUrl s' = videoUrl s /\ error s' = error s /\
  isAnalyzing s' = isAnalyzing s /\ detections s' = detections s /\
  trajectory s' = trajectory s /\ cvReady s' = cvReady s /\
  analysisTimestamp s' = analysisTimestamp s /\ videoRef s' = videoRef s.
Proof.
  unfold reportProgress. generalize (Sampler.progressReports evs) as reports.
  intros reports. revert s.
  induction reports as [|p reports IH]; intros s; cbn [fold_left].
  - repeat split.
  - destruct (IH (setProgress p s)) as (H1 & H2 & H3 & H4 & H5 & H6 & H7 & H8 & H9).
    cbn zeta in *. now rewrite H1, H2, H3, H4, H5, H6, H7, H8, H9.
Qed.

(** How a run ends, case by case. *)
Lemma handleAnalyze_cases (convert : list (DetectionPoint.t num) ->
                                     Completion (list (HawkEyePoint.t num)))
    (now : Z) (s : State num) :
  let s' := handleAnalyze convert now s in
  (sameCommitted s s' /\
   (error s' <> None \/ (error s' = None /\ isAnalyzing s' = true))) \/
  (exists video dps hps,
      videoRef s = Some video /\ cvReady s = true /\
      Sampler.outcome (Sampler.extractDetections video) = Returned dps /\
      dps <> [] /\ convert dps = Returned hps /\
      detections s' = dps /\ trajectory s' = hps /\
      analysisTimestamp s' = Some now /\ error s' = None /\
      isAnalyzing s' = false /\ progress s' = fromZ 1).
Proof.
  cbn zeta. unfold handleAnalyze.
  destruct (videoRef s) as [video|] eqn:Href.
  2:{ left. split; [repeat split | left; discriminate]. }
  destruct (cvReady s) eqn:Hcv; cbn [negb].
  2:{ left. split; [repeat split | left; discriminate]. }
  unfold tryBlock. fold (started s).
  destruct (reportProgress_fields
              (Sampler.trace (Sampler.extractDetections video)) (started s))
    as (H1 & H2 & H3 & H4 & H5 & H6 & H7 & H8 & H9). cbn zeta in *.
  set (s1 := reportProgress _ (started s)) in *.
  cbn in H1, H2, H3, H4, H5, H6, H7, H8, H9.
  assert (Hsame : sameCommitted s s1) by (unfold sameCommitted; tauto).
  assert (Hcatch : forall e,
             sameCommitted s (setAnalyzing false (catchAnalysisError e s1)) /\
             (error (setAnalyzing false (catchAnalysisError e s1)) <> None \/
              error (setAnalyzing false (catchAnalysisError e s1)) = None /\
              isAnalyzing (setAnalyzing false (catchAnalysisError e s1)) = true)).
  { intros e. split; [exact Hsame | left; discriminate]. }
  destruct (Sampler.outcome (Sampler.extractDetections video)) as [dps|e|] eqn:Hout.
  - destruct dps as [|d dps]; cbn [List.length Nat.eqb].
    + left. apply Hcatch.
    + destruct (convert (d :: dps)) as [hps|e|] eqn:Hconv.
      * right. exists video, (d :: dps), hps. cbn.
        repeat split; auto. discriminate.
      * left. apply Hcatch.
      * left. split; [exact Hsame | right; split; assumption].
  - left. apply Hcatch.
  - left. split; [exact Hsame | right; split; assumption].
Qed.

(** C4.  When the sampling pass completes with no detection, the run ends
    with the "No valid ball samples detected" message as its error, which is
    not the message for unexpected failures; the analyzing flag is down;
    detections, trajectory and timestamp are what they were; and the
    projection is not called: the final state is the same whatever
    [convertDetectionsToHawkEye] would do. *)
Theorem empty_result_fails
    (convert : list (DetectionPoint.t num) -> Completion (list (HawkEyePoint.t num)))
    (now : Z) (s : State num) (video : Sampler.Video num) :
  videoRef s = Some video -> cvReady s = true ->
  Sampler.outcome (Sampler.extractDetections video) = Returned [] ->
  let s' := handleAnalyze convert now s in
  error s' = Some noSamplesMessage /\
  noSamplesMessage <> unexpectedMessage /\
  isAnalyzing s' = false /\
  sameCommitted s s' /\
  (forall convert' now', handleAnalyze convert' now' s = s').
Proof.
  intros Href Hcv Hout. cbn zeta.
  assert (Hrun : forall convert' now',
             handleAnalyze convert' now' s =
             setAnalyzing false
               (catchAnalysisError (ErrorObject noSamplesMessage)
                  (reportProgress (Sampler.trace (Sampler.extractDetections video))
                     (setProgress (fromZ 0) (setError None (setAnalyzing true s)))))).
  { intros convert' now'. unfold handleAnalyze, tryBlock.
    now rewrite Href, Hcv, Hout. }
  rewrite Hrun.
  destruct (reportProgress_fields
              (Sampler.trace (Sampler.extractDetections video))
              (setProgress (fromZ 0) (setError None (setAnalyzing true s))))
    as (H1 & H2 & H3 & H4 & H5 & H6 & H7 & H8 & H9). cbn in *.
  split; [reflexivity|]. split; [discriminate|]. split; [reflexivity|].
  split; [unfold sameCommitted; cbn; tauto|].
  intros convert' now'. now rewrite Hrun.
Qed.

(** C10.  However a run fails (the video element or the engine is not
    ready, [extractDetections] throws, no detection is found, or the
    projection throws), an error message is set and detections, trajectory
    and timestamp are those of before the run, as are the fields the run never
    writes; if any of the three is different after the run, sampling
    returned a non-empty sequence, the projection returned, and the state
    holds exactly these two results and the time of the commit, with no
    error. *)
Theorem failed_run_commits_nothing
    (convert : list (DetectionPoint.t num) -> Completion (list (HawkEyePoint.t num)))
    (now : Z) (s : State num) :
  let s' := handleAnalyze convert now s in
  (error s' <> None -> sameCommitted s s') /\
  (forall video e,
      videoRef s = Some video -> cvReady s = true ->
      Sampler.outcome (Sampler.extractDetections video) = Threw e ->
      sameCommitted s s' /\ isAnalyzing s' = false /\
      error s' = Some match e with
                      | ErrorObject message => message
                      | OtherValue => unexpectedMessage
                      end) /\
  (forall video dps e,
      videoRef s = Some video -> cvReady s = true ->
      Sampler.outcome (Sampler.extractDetections video) = Returned dps ->
      dps <> [] -> convert dps = Threw e ->
      sameCommitted s s' /\ isAnalyzing s' = false /\ error s' <> None) /\
  (detections s' <> detections s \/ trajectory s' <> trajectory s \/
   analysisTimestamp s' <> analysisTimestamp s ->
   exists video dps hps,
     videoRef s = Some video /\
     Sampler.outcome (Sampler.extractDetections video) = Returned dps /\
     dps <> [] /\ convert dps = Returned hps /\
     detections s' = dps /\ trajectory s' = hps /\
     analysisTimestamp s' = Some now /\ error s' = None).
Proof.
  cbn zeta. pose proof (handleAnalyze_cases convert now s) as Hcases. cbn zeta in Hcases.
  split; [|split; [|split]].
  - intros Herr. destruct Hcases as [[Hsame _] | (video & dps & hps & Hc)]; [exact Hsame|].
    exfalso. apply Herr. tauto.
  - intros video e Href Hcv Hout.
    destruct Hcases as [[Hsame _] | (video' & dps & hps & Href' & _ & Hout' & _)].
    + split; [exact Hsame|]. unfold handleAnalyze, tryBlock.
      rewrite Href, Hcv, Hout. cbn. split; reflexivity.
    + congruence.
  - intros video dps e Href Hcv Hout Hne Hconv.
    destruct Hcases as [[Hsame _] | (video' & dps' & hps & Href' & _ & Hout' & _ & Hconv' & _)].
    + split; [exact Hsame|]. unfold handleAnalyze, tryBlock.
      rewrite Href, Hcv, Hout. cbn [negb].
      destruct dps as [|d dps]; [contradiction|]. cbn [List.length Nat.eqb].
      rewrite Hconv. cbn. split; [reflexivity | discriminate].
    + congruence.
  - intros Hchanged.
    destruct Hcases as [[(Hd & Ht & Hts & _) _] | (video & dps & hps & Hc)].
    + exfalso. destruct Hchanged as [Hx | [Hx | Hx]]; tauto.
    + exists video, dps, hps. tauto.
Qed.

End AnalyzerClaims.

Lemma empty_result_fails_witness :
  Analyzer.error
    (Analyzer.handleAnalyze (fun _ => Returned []) 0%Z
       (Scenarios.analysed (Scenarios.clip (num := Q) 100 Scenarios.blankFrame)))
  = Some Analyzer.noSamplesMessage.
Proof.
  assert (Hrun : Sampler.outcome (Sampler.extractDetections
                    (@Scenarios.clip Q Number_Q 100 Scenarios.blankFrame))
                 = Returned []) by (vm_compute; reflexivity).
  exact (proj1 (empty_result_fails (fun _ => Returned []) 0%Z
                  (Scenarios.analysed (@Scenarios.clip Q Number_Q 100 Scenarios.blankFrame))
                  (@Scenarios.clip Q Number_Q 100 Scenarios.blankFrame)
                  eq_refl eq_refl Hrun)).
Defined.

Lemma failed_run_commits_nothing_witness :
  Analyzer.sameCommitted
    (Scenarios.analysed (Scenarios.brokenClip (num := Q) 200))
    (Analyzer.handleAnalyze (fun _ => Returned []) 0%Z
       (Scenarios.analysed (Scenarios.brokenClip (num := Q) 200))).
Proof.
  assert (Herr : Analyzer.error
                   (Analyzer.handleAnalyze (fun _ => Returned []) 0%Z
                      (Scenarios.analysed (@Scenarios.brokenClip Q Number_Q 200)))
                 <> None) by (vm_compute; discriminate).
  exact (proj1 (failed_run_commits_nothing (fun _ => Returned []) 0%Z
                  (Scenarios.analysed (@Scenarios.brokenClip Q Number_Q 200)))
               Herr).
Defined.

(** ** The bounce point (C8) and the projector (C9) *)

Section ViewClaims.
Context {num : Type} `{Number num}.
Import HawkEyeView.

Lemma forEachFrom_bounce (points : list (HawkEyePoint.t num)) :
  forall rest index markers best,
    snd (forEachFrom points rest index (markers, best)) =
    match best with
    | Some b => Some b
    | None => findBounce points rest index
    end.
Proof.
  induction rest as [|point rest IH]; intros index markers best; cbn [forEachFrom findBounce].
  - now destruct best.
  - cbn [forEachBody]. rewrite IH. destruct best as [b|]; cbn.
    + now rewrite andb_false_r.
    + rewrite andb_true_r. now destruct (isBounceCandidate points point index).
Qed.

Lemma bouncePoint_findBounce (points : list (HawkEyePoint.t num)) :
  bouncePoint (memo points) = findBounce points points 0.
Proof.
  unfold memo. destruct points as [|first rest]; [reflexivity|].
  pose proof (forEachFrom_bounce (first :: rest) (first :: rest) 0 [] None) as Hb.
  destruct (forEachFrom _ _ _ _) as [viewMarkers bestBounce]. exact Hb.
Qed.

Lemma isBounceCandidate_descends (points : list (HawkEyePoint.t num)) point i :
  nth_error points i = Some point ->
  (isBounceCandidate points point i = true <-> descendsAt points i).
Proof.
  intros Hp. unfold isBounceCandidate, descendsAt. rewrite andb_true_iff, Nat.ltb_lt.
  split.
  - intros [Hi Hlt]. split; [exact Hi|].
    destruct (nth_error points (i - 1)) as [previous|]; [|discriminate].
    now exists previous, point.
  - intros (Hi & previous & point' & Hprev & Hp' & Hlt). split; [exact Hi|].
    rewrite Hprev. congruence.
Qed.

Lemma descendsAt_in_range (points : list (HawkEyePoint.t num)) i :
  descendsAt points i -> exists point, nth_error points i = Some point.
Proof. intros (_ & _ & point & _ & Hp & _). now exists point. Qed.

Lemma findBounce_spec (points : list (HawkEyePoint.t num)) :
  forall rest index pre,
    points = pre ++ rest -> List.length pre = index ->
    match findBounce points rest index with
    | Some point =>
        exists i, (index <= i)%nat /\ nth_error points i = Some point /\
                  descendsAt points i /\
                  forall j, (index <= j < i)%nat -> ~ descendsAt points j
    | None => forall j, (index <= j)%nat -> ~ descendsAt points j
    end.
Proof.
  induction rest as [|point rest IH]; intros index pre Hpts Hlen; cbn [findBounce].
  - intros j Hj Hd. apply descendsAt_in_range in Hd as [q Hq].
    assert (Hin : nth_error points j <> None) by congruence.
    apply nth_error_Some in Hin. subst points. rewrite app_nil_r in Hin. lia.
  - assert (Hhere : nth_error points index = Some point).
    { subst points index. rewrite nth_error_app2 by lia. now rewrite Nat.sub_diag. }
    destruct (isBounceCandidate points point index) eqn:Hc.
    + exists index. split; [lia|]. split; [exact Hhere|]. split; [|intros j Hj; lia].
      now apply (isBounceCandidate_descends points point index Hhere).
    + assert (Hnot : ~ descendsAt points index).
      { intros Hd. apply (isBounceCandidate_descends points point index Hhere) in Hd.
        congruence. }
      specialize (IH (S index) (pre ++ [point])).
      rewrite <- app_assoc in IH. specialize (IH Hpts).
      rewrite length_app, Hlen, Nat.add_1_r in IH. specialize (IH eq_refl).
      destruct (findBounce points rest (S index)) as [found|].
      * destruct IH as (i & Hi & Hnth & Hd & Hfirst).
        exists i. split; [lia|]. split; [exact Hnth|]. split; [exact Hd|].
        intros j Hj. destruct (Nat.eq_dec j index) as [->|Hne]; [exact Hnot|].
        apply Hfirst. lia.
      * intros j Hj. destruct (Nat.eq_dec j index) as [->|Hne]; [exact Hnot|].
        apply IH. lia.
Qed.

(** C8.  The bounce point of the view is the point at the first index where
    the height drops below that of the point just before (index 0 has no
    point before it); the impact circle is drawn from that point's lateral
    offset and distance; and there is no bounce point exactly when the height
    drops nowhere, as for an empty, a one-point or a never-descending
    trajectory. *)
Theorem bouncePoint_first_descent (points : list (HawkEyePoint.t num)) :
  (forall point,
      bouncePoint (memo points) = Some point <->
      exists i, nth_error points i = Some point /\ descendsAt points i /\
                forall j, (j < i)%nat -> ~ descendsAt points j) /\
  (bouncePoint (memo points) = None <-> forall i, ~ descendsAt points i) /\
  ~ descendsAt points 0 /\
  bounceMarker points =
    option_map
      (fun point =>
         (markerX point,
          sub (fromZ 200)
            (mul (div (HawkEyePoint.distance point) PITCH_LENGTH_METERS) (fromZ 180))))
      (bouncePoint (memo points)).
Proof.
  pose proof (findBounce_spec points points 0 [] eq_refl eq_refl) as Hspec.
  rewrite bouncePoint_findBounce.
  split; [|split; [|split]].
  - intros point. split.
    + intros Hfound. rewrite Hfound in Hspec.
      destruct Hspec as (i & _ & Hnth & Hd & Hfirst).
      exists i. split; [exact Hnth|]. split; [exact Hd|].
      intros j Hj. apply Hfirst. lia.
    + intros (i & Hnth & Hd & Hfirst).
      destruct (findBounce points points 0) as [found|].
      * destruct Hspec as (i' & _ & Hnth' & Hd' & Hfirst').
        destruct (Nat.lt_trichotomy i i') as [Hlt | [-> | Hgt]].
        -- exfalso. apply (Hfirst' i); [lia | exact Hd].
        -- congruence.
        -- exfalso. apply (Hfirst i'); [lia | exact Hd'].
      * exfalso. apply (Hspec i); [lia | exact Hd].
  - split.
    + intros Hnone. rewrite Hnone in Hspec. intros i. apply Hspec. lia.
    + intros Hno. destruct (findBounce points points 0) as [found|]; [|reflexivity].
      destruct Hspec as (i & _ & _ & Hd & _). now apply Hno in Hd.
  - intros [Hlt _]. lia.
  - unfold bounceMarker. rewrite bouncePoint_findBounce.
    now destruct (findBounce points points 0).
Qed.

End ViewClaims.

Section ProjectorClaims.
Context {num : Type}.
Variables distanceOf lateralOf heightOf : DetectionPoint.t num -> num.

Let convert := TrajectoryLib.convertDetectionsToHawkEye distanceOf lateralOf heightOf.

(** C9.  The projector returns as many points as it is given detections,
    and at every index the point has the time and the confidence of the
    detection at that index (and there is a point there exactly when there
    is a detection). *)
Theorem convertDetectionsToHawkEye_preserves (detections : list (DetectionPoint.t num)) :
  List.length (convert detections) = List.length detections /\
  forall i,
    option_map HawkEyePoint.time (nth_error (convert detections) i) =
      option_map DetectionPoint.time (nth_error detections i) /\
    option_map HawkEyePoint.confidence (nth_error (convert detections) i) =
      option_map DetectionPoint.confidence (nth_error detections i).
Proof.
  unfold convert, TrajectoryLib.convertDetectionsToHawkEye.
  split; [apply length_map|].
  intros i. rewrite nth_error_map.
  now destruct (nth_error detections i).
Qed.

End ProjectorClaims.

(** * Further properties of the code *)

(** ** The localizer: which contour wins, and when there is no candidate *)

Section LocalizerChoice.
Import Vision.
Open Scope Q_scope.

Lemma PI_positive : 0 < (PI : Q).
Proof. reflexivity. Qed.

(** A contour that passes both rejections has a positive score. *)
Lemma score_positive (c : Contour Q) : qualifies c = true -> 0 < score c.
Proof.
  intros Hq. apply qualifies_Q in Hq as [Ha Hp].
  assert (Harea : 0 < area c) by (apply Qlt_le_trans with 15; [reflexivity | exact Ha]).
  assert (Hsq : 0 < perimeter c * perimeter c).
  { destruct (Qlt_le_dec 0 (perimeter c)) as [Hpos | Hneg].
    - rewrite <- (Qmult_0_l (perimeter c)) at 1. now apply Qmult_lt_compat_r.
    - assert (Hlt : perimeter c < 0).
      { apply Qle_lteq in Hneg as [Hlt | Heq]; [exact Hlt | contradiction]. }
      setoid_replace (perimeter c * perimeter c)
        with ((- perimeter c) * (- perimeter c)) by ring.
      assert (Hpos : 0 < - perimeter c).
      { apply (Qplus_lt_l _ _ (perimeter c)). ring_simplify. exact Hlt. }
      rewrite <- (Qmult_0_l (- perimeter c)) at 1. now apply Qmult_lt_compat_r. }
  unfold score. cbn [mul div fromZ Number_Q].
  apply Qmult_lt_0_compat; [|exact Harea].
  apply Qlt_shift_div_l; [exact Hsq|]. rewrite Qmult_0_l.
  apply Qmult_lt_0_compat; [|exact Harea].
  apply Qmult_lt_0_compat; [reflexivity | apply PI_positive].
Qed.

(** The scan ends on the first contour, among those that qualify and beat
    the score it started with, whose score none of the others exceeds. *)
Lemma scan_first_maximum (cs : list (Contour Q)) :
  forall i best,
    let r := scan cs i best in
    (r = best /\
     forall c, In c cs -> qualifies c = true -> score c <= snd best) \/
    (exists k c,
        fst r = (i + Z.of_nat k)%Z /\ snd r = score c /\
        nth_error cs k = Some c /\ qualifies c = true /\
        snd best < score c /\
        (forall c', In c' cs -> qualifies c' = true -> score c' <= score c) /\
        (forall j c', (j < k)%nat -> nth_error cs j = Some c' ->
                      qualifies c' = true -> score c' < score c)).
Proof.
  induction cs as [|c rest IH]; intros i best; cbn zeta.
  - left. split; [reflexivity | intros c []].
  - cbn [scan]. destruct (qualifies c) eqn:Hq.
    + destruct (ltb (snd best) (score c)) eqn:Hlt.
      * apply ltb_Q in Hlt. right.
        destruct (IH (i + 1)%Z (i, score c)) as [[Hr Hall] | (k & c' & Hf & Hs & Hn & Hq' & Hb & Hmax & Hfirst)].
        -- exists 0%nat, c. rewrite Hr. cbn [fst snd] in *.
           split; [lia|]. split; [reflexivity|]. split; [reflexivity|].
           split; [exact Hq|]. split; [exact Hlt|]. split.
           ++ intros c' [<- | Hin] Hq'; [apply Qle_refl | now apply Hall].
           ++ intros j c' Hj. lia.
        -- exists (S k), c'. cbn [fst snd] in *.
           split; [lia|]. split; [exact Hs|]. split; [exact Hn|].
           split; [exact Hq'|]. split; [now apply Qlt_trans with (score c)|]. split.
           ++ intros c'' [<- | Hin] Hq''; [now apply Qlt_le_weak | now apply Hmax].
           ++ intros j c'' Hj Hnth Hq''. destruct j as [|j]; cbn in Hnth.
              ** inversion Hnth; subst c''. exact Hb.
              ** apply (Hfirst j); auto. lia.
      * apply ltb_Q_false in Hlt.
        destruct (IH (i + 1)%Z best) as [[Hr Hall] | (k & c' & Hf & Hs & Hn & Hq' & Hb & Hmax & Hfirst)].
        -- left. split; [exact Hr|].
           intros c' [<- | Hin] Hq'; [exact Hlt | now apply Hall].
        -- right. exists (S k), c'.
           split; [lia|]. split; [exact Hs|]. split; [exact Hn|].
           split; [exact Hq'|]. split; [exact Hb|]. split.
           ++ intros c'' [<- | Hin] Hq''; [|now apply Hmax].
              apply Qle_trans with (snd best); [exact Hlt | now apply Qlt_le_weak].
           ++ intros j c'' Hj Hnth Hq''. destruct j as [|j]; cbn in Hnth.
              ** inversion Hnth; subst c''.
                 now apply Qle_lt_trans with (snd best).
              ** apply (Hfirst j); auto. lia.
    + destruct (IH (i + 1)%Z best) as [[Hr Hall] | (k & c' & Hf & Hs & Hn & Hq' & Hb & Hmax & Hfirst)].
      * left. split; [exact Hr|].
        intros c' [<- | Hin] Hq'; [congruence | now apply Hall].
      * right. exists (S k), c'.
        split; [lia|]. split; [exact Hs|]. split; [exact Hn|].
        split; [exact Hq'|]. split; [exact Hb|]. split.
        -- intros c'' [<- | Hin] Hq''; [congruence | now apply Hmax].
        -- intros j c'' Hj Hnth Hq''. destruct j as [|j]; cbn in Hnth.
           ++ inversion Hnth; subst c''. congruence.
           ++ apply (Hfirst j); auto. lia.
Qed.

(** The contour the centroid is taken from is the first of largest score.  *)
Lemma bestContour_first_maximum (src : Frame Q) :
  match bestContour src with
  | Some c =>
      exists k,
        nth_error (contours src) k = Some c /\ qualifies c = true /\
        (forall c', In c' (contours src) -> qualifies c' = true ->
                    score c' <= score c) /\
        (forall j c', (j < k)%nat -> nth_error (contours src) j = Some c' ->
                      qualifies c' = true -> score c' < score c)
  | None => forall c, In c (contours src) -> qualifies c = false
  end.
Proof.
  unfold bestContour.
  destruct (scan_first_maximum (contours src) 0 ((-1)%Z, fromZ 0))
    as [[Hr Hall] | (k & c & Hf & Hs & Hn & Hq & Hb & Hmax & Hfirst)]; cbn zeta in *.
  - rewrite Hr. cbn [fst]. cbn.
    intros c Hin. destruct (qualifies c) eqn:Hq; [exfalso|reflexivity].
    apply (Qlt_not_le _ _ (score_positive c Hq)). now apply Hall.
  - rewrite Hf. replace (0 <=? 0 + Z.of_nat k)%Z with true by (symmetry; apply Z.leb_le; lia).
    replace (Z.to_nat (0 + Z.of_nat k)) with k by lia. rewrite Hn.
    exists k. repeat split; auto.
Qed.


Lemma bestContour_firstMaximum (src : Frame Q) :
  match bestContour src with
  | Some c => exists k, firstMaximum src k c
  | None => forall c, In c (contours src) -> qualifies c = false
  end.
Proof.
  pose proof (bestContour_first_maximum src) as Hb.
  destruct (bestContour src) as [c|]; [|exact Hb].
  destruct Hb as (k & Hn & Hq & Hmax & Hfirst). exists k.
  unfold firstMaximum. repeat split; auto.
  - intros c' Hin Hq'. apply ltb_Q_false. now apply Hmax.
  - intros j c' Hj Hnth Hq'. apply ltb_Q. now apply (Hfirst j).
Qed.

Lemma firstMaximum_unique (src : Frame Q) k1 c1 k2 c2 :
  firstMaximum src k1 c1 -> firstMaximum src k2 c2 -> k1 = k2 /\ c1 = c2.
Proof.
  intros (Hn1 & Hq1 & Hmax1 & Hfirst1) (Hn2 & Hq2 & Hmax2 & Hfirst2).
  destruct (Nat.lt_trichotomy k1 k2) as [Hlt | [-> | Hgt]].
  - exfalso. specialize (Hfirst2 k1 c1 Hlt Hn1 Hq1).
    rewrite (Hmax1 c2 (nth_error_In _ _ Hn2) Hq2) in Hfirst2. discriminate.
  - split; [reflexivity | congruence].
  - exfalso. specialize (Hfirst1 k2 c2 Hgt Hn2 Hq2).
    rewrite (Hmax2 c1 (nth_error_In _ _ Hn1) Hq1) in Hfirst1. discriminate.
Qed.

Lemma detectBallResult_bestContour {num : Type} `{Number num} (src : Frame num) :
  detectBallResult src =
  if empty src then None
  else
    match bestContour src with
    | Some c =>
        if negb (eqb (m00 c) (fromZ 0)) then
          let scale := if ltb (fromZ 480) (cols src) then div (fromZ 480) (cols src)
                       else fromZ 1 in
          Some (mkCandidate
                  (round (mul (div (m10 c) (m00 c))
                            (div (cols src) (round (mul (cols src) scale)))))
                  (round (mul (div (m01 c) (m00 c))
                            (div (rows src) (round (mul (rows src) scale)))))
                  (min (fromZ 1)
                     (div (snd (scan (contours src) 0 ((-1)%Z, fromZ 0))) (fromZ 1500))))
        else None
    | None => None
    end.
Proof.
  rewrite detectBallResult_scan. destruct (empty src); [reflexivity|].
  unfold candidateOf, bestContour. cbn zeta.
  destruct (0 <=? fst _)%Z; [|reflexivity].
  now destruct (nth_error _ _).
Qed.

Lemma bestContour_score (src : Frame Q) (c : Contour Q) :
  bestContour src = Some c ->
  snd (scan (contours src) 0 ((-1)%Z, fromZ 0)) = score c.
Proof.
  unfold bestContour. cbn zeta.
  destruct (scan_first_maximum (contours src) 0 ((-1)%Z, fromZ 0))
    as [[Hr _] | (k & c' & Hf & Hs & Hn & _)]; cbn zeta in *.
  - rewrite Hr. cbn. discriminate.
  - rewrite Hf, Hs.
    replace (0 <=? 0 + Z.of_nat k)%Z with true by (symmetry; apply Z.leb_le; lia).
    replace (Z.to_nat (0 + Z.of_nat k)) with k by lia. rewrite Hn. congruence.
Qed.

(** The candidate, from the winning contour. *)
Lemma detectBallResult_firstMaximum (src : Frame Q) (cand : Candidate Q) :
  detectBallResult src = Some cand ->
  exists k c,
    firstMaximum src k c /\ ~ m00 c == 0 /\
    let scale := if Qle_bool (cols src) 480 then 1 else 480 / cols src in
    let resizedCols := inject_Z (Qfloor (cols src * scale + (1 # 2))) in
    let resizedRows := inject_Z (Qfloor (rows src * scale + (1 # 2))) in
    x cand = inject_Z (Qfloor (m10 c / m00 c * (cols src / resizedCols) + (1 # 2))) /\
    y cand = inject_Z (Qfloor (m01 c / m00 c * (rows src / resizedRows) + (1 # 2))) /\
    confidence cand = Qmin 1 (score c / 1500).
Proof.
  rewrite detectBallResult_bestContour.
  destruct (empty src); [discriminate|].
  pose proof (bestContour_firstMaximum src) as Hfirst.
  pose proof (bestContour_score src) as Hscore.
  destruct (bestContour src) as [c|]; [|discriminate].
  destruct Hfirst as [k Hk]. rewrite (Hscore c eq_refl).
  destruct (negb (eqb (m00 c) (fromZ 0))) eqn:Hm; [|discriminate].
  intros Hc. inversion Hc; subst cand; clear Hc.
  exists k, c. split; [exact Hk|]. split.
  - intros Hz. apply eqb_Q in Hz. apply negb_true_iff in Hm.
    change (fromZ 0) with 0 in Hm. congruence.
  - cbn [x y confidence]. cbn [ltb leb mul div fromZ round min add Number_Q].
    change (inject_Z 480) with 480. change (inject_Z 1) with 1.
    destruct (Qle_bool (cols src) 480); cbn [negb]; repeat split.
Qed.

(** X1.  In exact arithmetic, whenever [detectBall] returns a candidate, it
    is built from the first contour of largest score among those of area at
    least 15 and nonzero perimeter (a later contour with the same score does
    not replace it): that contour's zeroth moment is not zero, the
    candidate's position is its centroid [(m10/m00, m01/m00)] scaled back by
    [cols / resized.cols] and [rows / resized.rows] and rounded, and its
    confidence is [min(1, score / 1500)]. *)
Theorem detectBall_candidate (src : Frame Q) (cand : Candidate Q) :
  detectBallResult src = Some cand ->
  exists k c,
    firstMaximum src k c /\ ~ m00 c == 0 /\
    let scale := if Qle_bool (cols src) 480 then 1 else 480 / cols src in
    let resizedCols := inject_Z (Qfloor (cols src * scale + (1 # 2))) in
    let resizedRows := inject_Z (Qfloor (rows src * scale + (1 # 2))) in
    x cand = inject_Z (Qfloor (m10 c / m00 c * (cols src / resizedCols) + (1 # 2))) /\
    y cand = inject_Z (Qfloor (m01 c / m00 c * (rows src / resizedRows) + (1 # 2))) /\
    confidence cand = Qmin 1 (score c / 1500).
Proof. exact (detectBallResult_firstMaximum src cand). Qed.

Lemma detectBall_candidate_witness :
  exists k c,
    firstMaximum (Scenarios.crowdedFrame (num := Q)) k c /\
    k = 1%nat /\ c = Scenarios.ball (num := Q).
Proof.
  destruct (detectBall_candidate
              (@Scenarios.crowdedFrame Q Number_Q)
              _ ltac:(vm_compute; reflexivity))
    as (k & c & Hk & _).
  exists k, c. split; [exact Hk|].
  apply (firstMaximum_unique _ k c 1%nat (@Scenarios.ball Q Number_Q) Hk).
  unfold firstMaximum. split; [reflexivity|]. split; [reflexivity|]. split.
  - intros c' [<- | [<- | [<- | []]]] Hq; vm_compute; try reflexivity; discriminate.
  - intros j c' Hj Hn Hq. destruct j as [|[|j]]; [|lia|lia].
    cbn in Hn. inversion Hn; subst c'. discriminate.
Defined.

(** X2.  In exact arithmetic [detectBall] returns no candidate exactly when
    the matrix read from the canvas is empty, or no contour has area at least
    15 and nonzero perimeter, or the first contour of largest score has a
    zero zeroth moment (it does not fall back on another contour). *)
Theorem detectBall_none_iff (src : Frame Q) :
  detectBallResult src = None <->
  empty src = true \/
  (forall c, In c (contours src) -> qualifies c = false) \/
  (exists k c, firstMaximum src k c /\ m00 c == 0).
Proof.
  rewrite detectBallResult_bestContour.
  pose proof (bestContour_firstMaximum src) as Hfirst.
  destruct (empty src); [split; [now left | reflexivity]|].
  destruct (bestContour src) as [c|].
  - destruct Hfirst as [k Hk].
    destruct (eqb (m00 c) (fromZ 0)) eqn:Hm; cbn [negb].
    + split; [|reflexivity]. intros _. right. right. exists k, c.
      split; [exact Hk | now apply eqb_Q in Hm].
    + split; [discriminate|].
      intros [Hempty | [Hnone | (k' & c' & Hk' & Hz)]]; [discriminate| |].
      * destruct Hk as (Hn & Hq & _). apply nth_error_In in Hn.
        rewrite (Hnone c Hn) in Hq. discriminate.
      * destruct (firstMaximum_unique src k c k' c' Hk Hk') as [_ <-].
        apply eqb_Q in Hz. change (fromZ 0) with 0 in Hm. congruence.
  - split; [|reflexivity]. intros _. right. now left.
Qed.

(** X3.  In exact arithmetic a returned candidate's confidence is strictly
    positive and at most 1, and it is 1 exactly when the winning score is
    1500 or more. *)
Theorem detectBall_confidence_positive (src : Frame Q) (cand : Candidate Q) :
  detectBallResult src = Some cand ->
  0 < confidence cand <= 1 /\
  exists k c, firstMaximum src k c /\
              (confidence cand == 1 <-> 1500 <= score c).
Proof.
  intros Hc. destruct (detectBallResult_firstMaximum src cand Hc) as (k & c & Hk & _ & _ & _ & Hconf).
  rewrite Hconf.
  assert (Hpos : 0 < score c) by (apply score_positive; apply Hk).
  assert (Hdiv : 0 < score c / 1500).
  { apply Qlt_shift_div_l; [reflexivity|]. now rewrite Qmult_0_l. }
  split; [split|].
  - destruct (Q.min_spec 1 (score c / 1500)) as [[_ ->] | [_ ->]]; [reflexivity | exact Hdiv].
  - apply Q.le_min_l.
  - exists k, c. split; [exact Hk|].
    assert (Hq : score c == score c / 1500 * 1500) by field.
    set (q := score c / 1500) in *.
    destruct (Q.min_spec 1 q) as [[Hlt Hmin] | [Hle Hmin]]; rewrite Hmin; split; intros H1; lra.
Qed.

Lemma detectBall_confidence_positive_witness :
  exists cand,
    detectBallResult (Scenarios.ballFrame (num := Q)) = Some cand /\
    0 < confidence cand <= 1.
Proof.
  eexists. split; [vm_compute; reflexivity|].
  apply (detectBall_confidence_positive (@Scenarios.ballFrame Q Number_Q) _
           ltac:(vm_compute; reflexivity)).
Defined.

End LocalizerChoice.

(** ** The localizer on a heap in use *)

Section LocalizerHeap.
Context {num : Type} `{Number num}.
Import Vision.

Lemma strays_names (cs : list (Contour num)) :
  forall n, Forall (fun k => hname k = "contour"%string) (strays cs n).
Proof.
  induction cs as [|c rest IH]; intros n; cbn [strays]; [constructor|].
  destruct (qualifies c); [apply IH | constructor; [reflexivity | apply IH]].
Qed.

Lemma delete_middle (hd : Handle) (n : nat) (before middle after : list Handle) :
  Forall (fun k => hid k <> hid hd) before ->
  Forall (fun k => hid k <> hid hd) after ->
  delete hd (mkHeap n (before ++ middle ++ after)) =
  (tt, mkHeap n (before ++
                 filter (fun k => negb (Nat.eqb (hid k) (hid hd))) middle ++ after)).
Proof.
  intros Hb Ha. unfold delete; cbn [nextId live]. rewrite !filter_app.
  now rewrite (filter_keeps_others _ before Hb), (filter_keeps_others _ after Ha).
Qed.

Lemma filter_other_cons (j : nat) (a : Handle) (l : list Handle) :
  hid a <> j ->
  filter (fun k => negb (Nat.eqb (hid k) j)) (a :: l) =
  a :: filter (fun k => negb (Nat.eqb (hid k) j)) l.
Proof. intros Hne. cbn [filter]. now destruct (Nat.eqb_spec (hid a) j). Qed.

Lemma filter_same_cons (j : nat) (a : Handle) (l : list Handle) :
  hid a = j ->
  filter (fun k => negb (Nat.eqb (hid k) j)) (a :: l) =
  filter (fun k => negb (Nat.eqb (hid k) j)) l.
Proof. intros He. cbn [filter]. now destruct (Nat.eqb_spec (hid a) j). Qed.

Lemma filter_none (j : nat) :
  filter (fun k : Handle => negb (Nat.eqb (hid k) j)) [] = [].
Proof. reflexivity. Qed.

Ltac filter_handles :=
  repeat first [ rewrite filter_other_cons by (cbn [hid]; lia)
               | rewrite filter_same_cons by (cbn [hid]; lia)
               | rewrite filter_none ].

(** A call on any heap whose live handles were handed out by it. *)
Lemma detectBallWith_run_on (w : num) (src : Frame num) (h : Heap) :
  fresh h ->
  detectBallWith w src h =
  if empty src then (None, mkHeap (S (nextId h)) (live h))
  else
    let best := scan (contours src) 0 ((-1)%Z, fromZ 0) in
    (candidateOf src w best,
     mkHeap (nextId h + 15 + List.length (contours src)
             + (if (0 <=? fst best)%Z then 1 else 0))
            (live h ++ strays (contours src) (nextId h + 15))).
Proof.
  intros Hfresh. destruct h as [n lv]. unfold fresh in Hfresh. cbn [nextId live] in *.
  unfold detectBallWith.
  cbv beta iota delta [bind alloc ret nextId live].
  destruct (empty src).
  - pose proof (alloc_delete "mat" (mkHeap n lv) Hfresh) as Hd.
    cbn [nextId live] in Hd. cbv beta iota zeta. rewrite Hd. reflexivity.
  - cbv beta iota zeta delta [bind alloc ret nextId live].
    rewrite contourLoop_run.
    2:{ unfold fresh; cbn [nextId live].
        repeat (apply Forall_app; split; [|constructor; [cbn; lia | constructor]]).
        eapply Forall_impl; [|exact Hfresh]. cbn; intros; lia. }
    cbn [nextId live].
    replace (S (S (S (S (S (S (S (S (S (S (S (S (S (S (S n)))))))))))))))
      with (n + 15)%nat by lia.
    set (cs := contours src).
    set (base := [mkHandle n "mat"; mkHandle (S n) "resized"; mkHandle (S (S n)) "blurred";
                  mkHandle (S (S (S n))) "rgb"; mkHandle (S (S (S (S n)))) "hsv";
                  mkHandle (S (S (S (S (S n))))) "lowerRed1";
                  mkHandle (S (S (S (S (S (S n)))))) "upperRed1";
                  mkHandle (S (S (S (S (S (S (S n))))))) "lowerRed2";
                  mkHandle (S (S (S (S (S (S (S (S n)))))))) "upperRed2";
                  mkHandle (S (S (S (S (S (S (S (S (S n))))))))) "mask1";
                  mkHandle (S (S (S (S (S (S (S (S (S (S n)))))))))) "mask2";
                  mkHandle (S (S (S (S (S (S (S (S (S (S (S n))))))))))) "mask";
                  mkHandle (S (S (S (S (S (S (S (S (S (S (S (S n)))))))))))) "kernel";
                  mkHandle (S (S (S (S (S (S (S (S (S (S (S (S (S n))))))))))))) "contours";
                  mkHandle (S (S (S (S (S (S (S (S (S (S (S (S (S (S n)))))))))))))) "hierarchy"]).
    assert (Hlive : ((((((((((((((((lv ++ [mkHandle n "mat"]) ++ [mkHandle (S n) "resized"]) ++
               [mkHandle (S (S n)) "blurred"]) ++ [mkHandle (S (S (S n))) "rgb"]) ++
               [mkHandle (S (S (S (S n)))) "hsv"]) ++
               [mkHandle (S (S (S (S (S n))))) "lowerRed1"]) ++
               [mkHandle (S (S (S (S (S (S n)))))) "upperRed1"]) ++
               [mkHandle (S (S (S (S (S (S (S n))))))) "lowerRed2"]) ++
               [mkHandle (S (S (S (S (S (S (S (S n)))))))) "upperRed2"]) ++
               [mkHandle (S (S (S (S (S (S (S (S (S n))))))))) "mask1"]) ++
               [mkHandle (S (S (S (S (S (S (S (S (S (S n)))))))))) "mask2"]) ++
               [mkHandle (S (S (S (S (S (S (S (S (S (S (S n))))))))))) "mask"]) ++
               [mkHandle (S (S (S (S (S (S (S (S (S (S (S (S n)))))))))))) "kernel"]) ++
               [mkHandle (S (S (S (S (S (S (S (S (S (S (S (S (S n))))))))))))) "contours"]) ++
               [mkHandle (S (S (S (S (S (S (S (S (S (S (S (S (S (S n)))))))))))))) "hierarchy"]) ++
               strays cs (n + 15))
             = lv ++ base ++ strays cs (n + 15)).
    { subst base. repeat rewrite <- app_assoc. reflexivity. }
    rewrite Hlive. clear Hlive.
    assert (Hheap : fresh (mkHeap (n + 15 + List.length cs) (lv ++ base ++ strays cs (n + 15)))).
    { unfold fresh; cbn [live nextId]. apply Forall_app; split; [|apply Forall_app; split].
      - eapply Forall_impl; [|exact Hfresh]. cbn; intros; lia.
      - subst base. repeat (constructor; [cbn; lia|]). constructor.
      - apply strays_below. }
    assert (Hbefore : forall j, (n <= j)%nat -> Forall (fun k => hid k <> j) lv).
    { intros j Hj. eapply Forall_impl; [|exact Hfresh]. cbn; intros; lia. }
    assert (Hafter : forall j, (j < n + 15)%nat ->
              Forall (fun k => hid k <> j) (strays cs (n + 15))).
    { intros j Hj. eapply Forall_impl; [|apply strays_ids]. cbn; intros; lia. }
    unfold candidateOf.
    destruct (scan cs 0 ((-1)%Z, fromZ 0)) as [bestContourIndex bestScore].
    cbn [fst snd].
    destruct (0 <=? bestContourIndex)%Z.
    + pose proof (alloc_delete "contour" _ Hheap) as Hd. cbn [nextId live] in Hd.
      cbn [nextId live]. rewrite Hd. subst base.
      repeat (rewrite delete_middle by (first [apply Hbefore | apply Hafter]; cbn [hid]; lia);
              cbn [hid]; filter_handles).
      cbn [app]. now rewrite Nat.add_1_r.
    + subst base.
      repeat (rewrite delete_middle by (first [apply Hbefore | apply Hafter]; cbn [hid]; lia);
              cbn [hid]; filter_handles).
      cbn [app]. now rewrite Nat.add_0_r.
Qed.


Lemma detectBall_run_on (src : Frame num) (h : Heap) :
  fresh h ->
  fst (detectBall src h) = detectBallResult src /\
  fresh (snd (detectBall src h)) /\
  exists left,
    live (snd (detectBall src h)) = live h ++ left /\
    Forall (fun k => hname k = "contour"%string) left /\
    List.length left = rejected src.
Proof.
  intros Hfresh. unfold detectBall, rejected.
  rewrite (detectBallWith_run_on _ src h Hfresh), detectBallResult_scan.
  destruct (empty src); cbn [fst snd live nextId].
  - split; [reflexivity|]. split.
    + unfold fresh. cbn [live nextId]. eapply Forall_impl; [|exact Hfresh]. cbn; intros; lia.
    + exists []. rewrite app_nil_r. repeat split. constructor.
  - split; [reflexivity|]. split.
    + unfold fresh. cbn [live nextId]. apply Forall_app; split.
      * eapply Forall_impl; [|exact Hfresh]. cbn; intros; lia.
      * eapply Forall_impl; [|apply strays_below]. cbn; intros; lia.
    + exists (strays (contours src) (nextId h + 15)).
      split; [reflexivity|]. split; [apply strays_names | apply strays_length].
Qed.

(** X4.  A call of [detectBall] on a heap in use returns what it returns on
    an empty heap, deletes no handle that was live before the call, and
    leaves behind only handles named [contour], one per rejected contour: the
    fifteen working buffers (the source matrix, the resized, blurred and
    converted images, the four threshold matrices, the three masks, the
    kernel, the contour vector and the hierarchy) and the winning contour's
    handle are always released. *)
Theorem detectBall_leaves_only_contours (src : Frame num) (h : Heap) :
  fresh h ->
  fst (detectBall src h) = detectBallResult src /\
  exists left,
    live (snd (detectBall src h)) = live h ++ left /\
    Forall (fun k => hname k = "contour"%string) left /\
    List.length left = rejected src.
Proof.
  intros Hfresh. destruct (detectBall_run_on src h Hfresh) as (Hr & _ & Hl).
  now split.
Qed.

Lemma detectBallEach_run (srcs : list (Frame num)) :
  forall h, fresh h ->
    fst (detectBallEach srcs h) = map detectBallResult srcs /\
    fresh (snd (detectBallEach srcs h)) /\
    List.length (live (snd (detectBallEach srcs h))) =
      (List.length (live h) + list_sum (map rejected srcs))%nat.
Proof.
  induction srcs as [|src rest IH]; intros h Hfresh; cbn [detectBallEach map].
  - cbn. split; [reflexivity|]. split; [exact Hfresh | lia].
  - unfold bind.
    destruct (detectBall_run_on src h Hfresh) as (Hr & Hf & left & Hlive & _ & Hlen).
    destruct (detectBall src h) as [result h1]. cbn [fst snd] in *.
    destruct (IH h1 Hf) as (Hrs & Hfs & Hlens).
    destruct (detectBallEach rest h1) as [results h2]. cbn [fst snd ret] in *.
    split; [now rewrite Hr, Hrs|]. split; [exact Hfs|].
    change (list_sum (rejected src :: map rejected rest))
      with (rejected src + list_sum (map rejected rest))%nat.
    rewrite Hlens, Hlive, length_app, Hlen. lia.
Qed.

(** X5.  Over successive calls of [detectBall], one per frame, on a heap
    that starts empty, the handles still live at the end are as many as all
    the contours rejected along the way: what one call leaves behind is
    never collected by a later one, so the count never goes down. *)
Theorem detectBallEach_accumulates (srcs : list (Frame num)) :
  fst (detectBallEach srcs emptyHeap) = map detectBallResult srcs /\
  List.length (live (snd (detectBallEach srcs emptyHeap))) =
    list_sum (map rejected srcs) /\
  forall more,
    (List.length (live (snd (detectBallEach srcs emptyHeap))) <=
     List.length (live (snd (detectBallEach (srcs ++ more) emptyHeap))))%nat.
Proof.
  assert (Hempty : fresh emptyHeap) by constructor.
  destruct (detectBallEach_run srcs emptyHeap Hempty) as (Hr & _ & Hlen).
  split; [exact Hr|]. split; [exact Hlen|].
  intros more.
  destruct (detectBallEach_run (srcs ++ more) emptyHeap Hempty) as (_ & _ & Hlen').
  rewrite Hlen, Hlen', map_app, list_sum_app. cbn. lia.
Qed.

End LocalizerHeap.

Lemma detectBall_leaves_only_contours_witness :
  exists left,
    Vision.live (snd (Vision.detectBall (Scenarios.speckFrame (num := Q))
                        (Vision.mkHeap 3 [Vision.mkHandle 1 "earlier"]))) =
      [Vision.mkHandle 1 "earlier"] ++ left /\
    List.length left = 1%nat.
Proof.
  destruct (@detectBall_leaves_only_contours Q Number_Q Scenarios.speckFrame
              (Vision.mkHeap 3 [Vision.mkHandle 1 "earlier"]))
    as (_ & left & Hlive & _ & Hlen).
  - repeat constructor.
  - exists left. split; [exact Hlive | exact Hlen].
Defined.

(** ** The sampler: how a run ends *)

Section SamplerRuns.
Context {num : Type} `{Number num}.
Import Sampler.

Lemma drawPositions_length (evs : list (Event num)) :
  List.length (drawPositions evs) = sampledSteps evs.
Proof.
  unfold drawPositions, sampledSteps.
  induction evs as [|e evs IH]; [reflexivity|].
  destruct e; simpl; rewrite IH; reflexivity.
Qed.

(** X6.  In any arithmetic (exact or binary64, whatever the duration, NaN
    and infinite ones included), when a sampling run returns or throws it
    has drawn at most 321 frames and has called [onProgress] exactly once for
    each frame drawn, a frame without a ball included. *)
Theorem run_is_bounded (video : Video num) :
  (sampledSteps (trace (extractDetections video)) <= 321)%nat /\
  List.length (progressReports (trace (extractDetections video))) =
    sampledSteps (trace (extractDetections video)) /\
  List.length (drawPositions (trace (extractDetections video))) =
    sampledSteps (trace (extractDetections video)).
Proof.
  destruct (extractDetections_trace video) as (Hbound & Hrep & _). cbn zeta in *.
  split; [exact Hbound|]. split.
  - rewrite Hrep. now rewrite length_map, length_seq.
  - apply drawPositions_length.
Qed.

(** What the loop throws, and where the trace stops. *)
Lemma sampleLoop_failed_seek (video : Video num) (width height : Z) (interval : num) :
  forall fuel time i st e,
    outcome (sampleLoop fuel video width height interval time i st) = Threw e ->
    e = ErrorObject seekMessage /\
    exists earlier target,
      trace (sampleLoop fuel video width height interval time i st)
        = earlier ++ [Seek target] /\
      seeked video target = false.
Proof.
  induction fuel as [|fuel IH]; intros time i st e; [discriminate|].
  cbn [sampleLoop]. destruct (_ && _); [|discriminate].
  unfold seekVideo. destruct (ltb _ _); [apply IH|].
  destruct (seeked video _) eqn:Hseek; [apply IH|].
  cbn. intros He. inversion He. split; [reflexivity|].
  eexists. eexists. split; [reflexivity | exact Hseek].
Qed.

(** The three errors of [extractDetections]. *)
Lemma extractDetections_throws (video : Video num) (e : Thrown) :
  outcome (extractDetections video) = Threw e ->
  (e = ErrorObject dimensionsMessage /\ Claims.dimensionsUnavailable video /\
   trace (extractDetections video) = []) \/
  (e = ErrorObject surfaceMessage /\ hasContext2d video = false /\
   trace (extractDetections video) = []) \/
  (e = ErrorObject seekMessage /\
   exists earlier target,
     trace (extractDetections video) = earlier ++ [Seek target] /\
     seeked video target = false).
Proof.
  unfold extractDetections, Claims.dimensionsUnavailable.
  destruct (_ || _) eqn:Hdims.
  - cbn. intros He. inversion He. left. repeat split.
    apply orb_true_iff in Hdims as [Hw | Hh]; [left | right]; now apply Z.eqb_eq.
  - destruct (hasContext2d video); cbn [negb].
    + intros He. right. right. now apply sampleLoop_failed_seek in He.
    + cbn. intros He. inversion He. right. left. repeat split.
Qed.

Lemma sampleLoop_stops (video : Video num) (width height : Z) (interval time : num)
    (fuel : nat) (i : Z) (st : LoopState num) :
  leb time (duration video) = false ->
  sampleLoop (S fuel) video width height interval time i st =
  mkRun (Returned (detections st)) (events st).
Proof. intros Hd. cbn [sampleLoop]. now rewrite Hd. Qed.

(** X8.  When the loop condition fails at once ([0 <= duration] is false, as
    for a negative or NaN duration) nothing is sought, drawn or reported,
    [extractDetections] returns the empty sequence, and [handleAnalyze] ends
    the run with the "No valid ball samples detected" error. *)
Theorem no_step_without_duration
    (convert : list (DetectionPoint.t num) -> Completion (list (HawkEyePoint.t num)))
    (now : Z) (s : Analyzer.State num) (video : Video num) :
  leb (fromZ 0) (duration video) = false ->
  videoWidth video <> 0%Z -> videoHeight video <> 0%Z -> hasContext2d video = true ->
  Analyzer.videoRef s = Some video -> Analyzer.cvReady s = true ->
  extractDetections video = mkRun (Returned []) [] /\
  Analyzer.handleAnalyze convert now s =
    Analyzer.setAnalyzing false
      (Analyzer.setError (Some Analyzer.noSamplesMessage) (Analyzer.started s)).
Proof.
  intros Hd Hw Hh Hctx Href Hcv.
  assert (Hrun : extractDetections video = mkRun (Returned []) []).
  { unfold extractDetections. apply Z.eqb_neq in Hw, Hh. rewrite Hw, Hh, Hctx.
    cbn [orb negb]. change (Z.to_nat MAX_SAMPLES + 2)%nat with (S (Z.to_nat MAX_SAMPLES + 1)).
    now apply sampleLoop_stops. }
  split; [exact Hrun|].
  unfold Analyzer.handleAnalyze, Analyzer.tryBlock. rewrite Href, Hcv, Hrun. reflexivity.
Qed.

End SamplerRuns.

(** X7.  For a clip whose duration is a rational number, hence finite (with
    an infinite duration the assignment to [currentTime] is itself refused
    with a [TypeError], a case outside this statement): whatever
    [extractDetections] throws is an [Error] with one of three messages: the
    dimensions message, when the width or height is zero, and the surface
    message, when there is no 2D context, both before anything was sought,
    drawn or reported; or the seek message, and then the last thing the run
    did was to ask for a playback position that the video answered with an
    [error] event: a failed seek ends the run on the spot, no frame being
    skipped. *)
Theorem extractDetections_errors (video : Sampler.Video Q) (e : Thrown) :
  Sampler.outcome (Sampler.extractDetections video) = Threw e ->
  (e = ErrorObject Sampler.dimensionsMessage /\ Claims.dimensionsUnavailable video /\
   Sampler.trace (Sampler.extractDetections video) = []) \/
  (e = ErrorObject Sampler.surfaceMessage /\ Sampler.hasContext2d video = false /\
   Sampler.trace (Sampler.extractDetections video) = []) \/
  (e = ErrorObject Sampler.seekMessage /\
   exists earlier target,
     Sampler.trace (Sampler.extractDetections video) = earlier ++ [Sampler.Seek target] /\
     Sampler.seeked video target = false).
Proof. exact (extractDetections_throws video e). Qed.

Lemma extractDetections_errors_witness :
  exists earlier target,
    Sampler.trace (Sampler.extractDetections (Scenarios.brokenClip (num := Q) 200))
      = earlier ++ [Sampler.Seek target].
Proof.
  destruct (extractDetections_errors (@Scenarios.brokenClip Q Number_Q 200)
              (ErrorObject Sampler.seekMessage) ltac:(vm_compute; reflexivity))
    as [(He & _) | [(He & _) | (_ & earlier & target & Htrace & _)]].
  - discriminate.
  - discriminate.
  - now exists earlier, target.
Defined.

Lemma no_step_without_duration_witness :
  Sampler.extractDetections
    (Scenarios.clipLasting (num := float) PrimFloat.nan Scenarios.ballFrame)
  = Sampler.mkRun (Returned []) [] /\
  Sampler.extractDetections
    (Scenarios.clipLasting (num := Q) (-1) Scenarios.ballFrame)
  = Sampler.mkRun (Returned []) [].
Proof.
  split.
  - refine (proj1 (@no_step_without_duration float Number_float (fun _ => Returned []) 0%Z
             (Scenarios.analysed (@Scenarios.clipLasting float Number_float PrimFloat.nan Scenarios.ballFrame))
             (@Scenarios.clipLasting float Number_float PrimFloat.nan Scenarios.ballFrame)
             eq_refl _ _ eq_refl eq_refl eq_refl)); cbn; discriminate.
  - refine (proj1 (@no_step_without_duration Q Number_Q (fun _ => Returned []) 0%Z
             (Scenarios.analysed (@Scenarios.clipLasting Q Number_Q (-1)%Q Scenarios.ballFrame))
             (@Scenarios.clipLasting Q Number_Q (-1)%Q Scenarios.ballFrame)
             eq_refl _ _ eq_refl eq_refl eq_refl)); cbn; discriminate.
Defined.

(** ** Exact arithmetic: the integers below a rational *)

Section SamplerCount.
Import Sampler.
Open Scope Q_scope.

Lemma floor_ge (k : Z) (q : Q) : inject_Z k <= q <-> (k <= Qfloor q)%Z.
Proof.
  split.
  - intros Hk. rewrite <- (Qfloor_Z k). now apply Qfloor_resp_le.
  - intros Hk. apply Qle_trans with (inject_Z (Qfloor q)); [|apply Qfloor_le].
    now rewrite <- Zle_Qle.
Qed.

End SamplerCount.

(** ** The sampler: which frame each detection comes from *)

Section SamplerProvenance.
Context {num : Type} `{Number num}.
Import Sampler.

Lemma drawPositions_app (a b : list (Event num)) :
  drawPositions (a ++ b) = drawPositions a ++ drawPositions b.
Proof. unfold drawPositions. apply flat_map_app. Qed.

Lemma drawPositions_seek (video : Video num) (current time : num) :
  drawPositions (snd (seekVideo video current time)) = [].
Proof.
  destruct (seekVideo_events video current time) as [-> | [target ->]]; reflexivity.
Qed.

Lemma provenanceInvariant_step (video : Video num) :
  forall time i st pos evs,
    provenanceInvariant video time i st ->
    leb time (duration video) = true -> (i <= MAX_SAMPLES)%Z ->
    seekVideo video (position st) time = (Returned pos, evs) ->
    provenanceInvariant video (add time (sampleInterval video)) (i + 1)%Z
      (afterStep video (videoWidth video) (videoHeight video) time st pos evs).
Proof.
  intros time i st pos evs (Hi & Ht & Hlen & Hfrom & Hto) _ _ Hseek.
  assert (Hnat : Z.to_nat (i + 1) = S (Z.to_nat i)) by lia.
  assert (Hdraw : drawPositions (events st ++ evs ++
             [Draw pos; Progress (min (fromZ 1) (div time (duration video)))])
           = drawPositions (events st) ++ [pos]).
  { rewrite !drawPositions_app.
    pose proof (drawPositions_seek video (position st) time) as He.
    rewrite Hseek in He. cbn [snd] in He. now rewrite He. }
  unfold provenanceInvariant, afterStep. cbn [detections events].
  rewrite Hdraw, Hnat.
  split; [lia|]. split; [cbn [timeAt]; now rewrite <- Ht|].
  split; [rewrite length_app; cbn; lia|].
  assert (Hkeep : forall k p, nth_error (drawPositions (events st)) k = Some p ->
             nth_error (drawPositions (events st) ++ [pos]) k = Some p).
  { intros k p Hk. rewrite nth_error_app1; [exact Hk|].
    apply nth_error_Some. congruence. }
  assert (Hnew : forall k p, nth_error (drawPositions (events st) ++ [pos]) k = Some p ->
             nth_error (drawPositions (events st)) k = Some p \/
             (k = Z.to_nat i /\ p = pos)).
  { intros k p Hk.
    destruct (Nat.lt_ge_cases k (List.length (drawPositions (events st)))) as [Hlt | Hge].
    - left. now rewrite nth_error_app1 in Hk.
    - right. rewrite nth_error_app2 in Hk by exact Hge.
      destruct (k - List.length (drawPositions (events st)))%nat as [|m] eqn:Hm.
      + cbn in Hk. inversion Hk. split; [lia | reflexivity].
      + cbn in Hk. now destruct m. }
  destruct (Vision.detectBallResult (picture video pos)) as [found|] eqn:Hdet.
  - split.
    + intros d Hin. apply in_app_or in Hin as [Hin | [<- | []]].
      * destruct (Hfrom d Hin) as (k & p & cand & Hk & Hc & Hd).
        exists k, p, cand. split; [now apply Hkeep | now split].
      * exists (Z.to_nat i), pos, found. split; [|split; [exact Hdet|]].
        -- rewrite nth_error_app2 by lia. rewrite Hlen, Nat.sub_diag. reflexivity.
        -- unfold pushedAt. now rewrite Ht.
    + intros k p cand Hk Hc. apply Hnew in Hk as [Hk | [-> ->]].
      * destruct (Hto k p cand Hk Hc) as (d & Hin & Hd).
        exists d. split; [apply in_or_app; now left | exact Hd].
      * rewrite Hdet in Hc. inversion Hc; subst cand.
        eexists. split; [apply in_or_app; right; left; reflexivity|].
        unfold pushedAt. now rewrite Ht.
  - split.
    + intros d Hin. destruct (Hfrom d Hin) as (k & p & cand & Hk & Hc & Hd).
      exists k, p, cand. split; [now apply Hkeep | now split].
    + intros k p cand Hk Hc. apply Hnew in Hk as [Hk | [-> ->]].
      * now apply (Hto k p cand).
      * congruence.
Qed.

(** Detections and drawn frames with a candidate correspond. *)
Lemma detections_provenance (video : Video num) ds :
  outcome (extractDetections video) = Returned ds ->
  (forall d, In d ds ->
     exists k pos cand,
       nth_error (drawPositions (trace (extractDetections video))) k = Some pos /\
       Vision.detectBallResult (picture video pos) = Some cand /\
       pushedAt video k cand d) /\
  (forall k pos cand,
     nth_error (drawPositions (trace (extractDetections video))) k = Some pos ->
     Vision.detectBallResult (picture video pos) = Some cand ->
     exists d, In d ds /\ pushedAt video k cand d).
Proof.
  unfold extractDetections.
  destruct (_ || _); [discriminate|].
  destruct (negb _); [discriminate|].
  destruct (sampleLoop_invariant video (videoWidth video) (videoHeight video)
              (sampleInterval video) (provenanceInvariant video)
              (provenanceInvariant_step video)
              (Z.to_nat MAX_SAMPLES + 2) (fromZ 0) 0%Z
              (mkLoopState (currentTime video) [] []))
    as (time' & i' & st' & rest & (_ & _ & _ & Hfrom & Hto) & Htrace & _ & _ & Hret & _).
  { unfold provenanceInvariant. cbn. repeat split; try lia; try contradiction.
    intros k pos cand Hk. now destruct k. }
  cbn zeta in Htrace, Hret. intros Hds.
  destruct (Hret ds Hds) as (-> & -> & _). rewrite Htrace, app_nil_r.
  split; assumption.
Qed.

(** X10.  In any arithmetic the detections a completed run returns are
    exactly the candidates [detectBall] found in the frames the run drew:
    each detection point was pushed at some step [k] for the candidate of the
    frame drawn at that step, with the step's time, the candidate's position
    and confidence, and the position divided by the intrinsic width and
    height; and every drawn frame with a candidate has its detection point
    in the result (none is dropped). *)
Theorem detections_match_drawn_frames (video : Video num) ds :
  outcome (extractDetections video) = Returned ds ->
  (forall d, In d ds ->
     exists k pos cand,
       nth_error (drawPositions (trace (extractDetections video))) k = Some pos /\
       Vision.detectBallResult (picture video pos) = Some cand /\
       pushedAt video k cand d) /\
  (forall k pos cand,
     nth_error (drawPositions (trace (extractDetections video))) k = Some pos ->
     Vision.detectBallResult (picture video pos) = Some cand ->
     exists d, In d ds /\ pushedAt video k cand d).
Proof. exact (detections_provenance video ds). Qed.

End SamplerProvenance.

Lemma detections_match_drawn_frames_witness :
  exists ds,
    Sampler.outcome (Sampler.extractDetections
      (Scenarios.clip (num := float) 100 Scenarios.ballFrame)) = Returned ds /\
    List.length ds = 13%nat /\
    forall d, In d ds ->
      exists k pos cand,
        nth_error (Sampler.drawPositions (Sampler.trace (Sampler.extractDetections
          (Scenarios.clip (num := float) 100 Scenarios.ballFrame)))) k = Some pos /\
        Vision.detectBallResult
          (Sampler.picture (Scenarios.clip (num := float) 100 Scenarios.ballFrame) pos)
          = Some cand /\
        Sampler.pushedAt (Scenarios.clip (num := float) 100 Scenarios.ballFrame) k cand d.
Proof.
  eexists. split; [vm_compute; reflexivity|]. split; [reflexivity|].
  match goal with
  | |- forall d, In d ?ds -> _ =>
      assert (Hrun : Sampler.outcome (Sampler.extractDetections
                        (@Scenarios.clip float Number_float 100 Scenarios.ballFrame))
                     = Returned ds) by (vm_compute; reflexivity);
      exact (proj1 (@detections_match_drawn_frames float Number_float _ ds Hrun))
  end.
Defined.

(** ** Seeking, in exact arithmetic *)

Section Seeking.
Import Sampler.
Open Scope Q_scope.

Lemma clamp_within (time duration : Q) :
  0 <= time -> time <= duration -> Qmin (Qmax time 0) duration == time.
Proof.
  intros H0 Hd. rewrite (Q.max_l time 0 H0). now apply Q.min_l.
Qed.

(** The two ways a call of [seekVideo] goes. *)
Lemma seekVideo_cases (video : Video Q) (current time : Q) :
  0 <= duration video ->
  (Qabs (current - time) < 1 # 100 /\
   seekVideo video current time = (Returned current, [])) \/
  (1 # 100 <= Qabs (current - time) /\
   exists target,
     0 <= target <= duration video /\
     (0 <= time -> time <= duration video -> target == time) /\
     (time <= 0 -> target == 0) /\
     (duration video <= time -> target == duration video) /\
     seekVideo video current time =
       (if seeked video target then Returned target
        else Threw (ErrorObject seekMessage),
        [Seek target])).
Proof.
  intros Hd. unfold seekVideo.
  destruct (ltb (abs (sub current time)) (decimal 1 100)) eqn:Hnear.
  - left. apply ltb_Q in Hnear. split; [exact Hnear | reflexivity].
  - right. apply ltb_Q_false in Hnear. split; [exact Hnear|].
    cbn [min max fromZ Number_Q]. change (inject_Z 0) with 0.
    exists (Qmin (Qmax time 0) (duration video)).
    split; [split|]; [| |split; [|split; [|split]]].
    + apply Q.min_glb; [apply Q.le_max_r | exact Hd].
    + apply Q.le_min_r.
    + intros H0 Hle. now apply clamp_within.
    + intros Hneg. rewrite (Q.max_r time 0 Hneg). now apply Q.min_l.
    + intros Hpast. apply Q.min_r.
      apply Qle_trans with time; [exact Hpast | apply Q.le_max_l].
    + now destruct (seeked video _).
Qed.

(** X11.  In exact arithmetic, for a video of duration at least 0,
    [seekVideo] either finds the video less than 0.01 s away from the
    requested time and leaves it where it is, without a seek; or it asks for
    one position, the requested time clamped to [0, duration] (the time
    itself when it lies in that range), and then the video is there if it
    answers [seeked], and the call throws "Failed to seek video frame." if it
    answers [error]. *)
Theorem seekVideo_clamps (video : Video Q) (current time : Q) :
  0 <= duration video ->
  (Qabs (current - time) < 1 # 100 /\
   seekVideo video current time = (Returned current, [])) \/
  (1 # 100 <= Qabs (current - time) /\
   exists target,
     0 <= target <= duration video /\
     (0 <= time -> time <= duration video -> target == time) /\
     (time <= 0 -> target == 0) /\
     (duration video <= time -> target == duration video) /\
     seekVideo video current time =
       (if seeked video target then Returned target
        else Threw (ErrorObject seekMessage),
        [Seek target])).
Proof. exact (seekVideo_cases video current time). Qed.

Lemma seekVideo_clamps_witness :
  seekVideo (Scenarios.clip (num := Q) 200 Scenarios.blankFrame) 0 0
    = (Returned 0, []).
Proof.
  destruct (seekVideo_clamps (@Scenarios.clip Q Number_Q 200 Scenarios.blankFrame) 0 0)
    as [[_ Hstay] | [Hfar _]].
  - cbn. discriminate.
  - exact Hstay.
  - exfalso. apply Hfar. reflexivity.
Defined.

Lemma positionInvariant_step (video : Video Q) :
  forall time i st pos evs,
    positionInvariant video time i st ->
    leb time (duration video) = true -> (i <= MAX_SAMPLES)%Z ->
    seekVideo video (position st) time = (Returned pos, evs) ->
    positionInvariant video (add time (sampleInterval video)) (i + 1)%Z
      (afterStep video (videoWidth video) (videoHeight video) time st pos evs).
Proof.
  intros time i st pos evs (Hi & Ht & Hlen & Hnear) Hguard _ Hseek.
  apply leb_Q in Hguard.
  assert (Hnat : Z.to_nat (i + 1) = S (Z.to_nat i)) by lia.
  assert (H0 : 0 <= time) by (rewrite Ht; apply timeAt_nonneg).
  assert (Hpos : Qabs (pos - time) < 1 # 100).
  { assert (Hd : 0 <= duration video) by (now apply Qle_trans with time).
    destruct (seekVideo_cases video (position st) time Hd)
      as [[Hstay Hrun] | (_ & target & _ & Hin & _ & _ & Hrun)];
      rewrite Hrun in Hseek.
    - inversion Hseek; subst pos. exact Hstay.
    - destruct (seeked video target); inversion Hseek; subst pos.
      rewrite (Hin H0 Hguard).
      setoid_replace (time - time) with 0 by ring. reflexivity. }
  assert (Hdraw : drawPositions (events st ++ evs ++
             [Draw pos; Progress (min (fromZ 1) (div time (duration video)))])
           = drawPositions (events st) ++ [pos]).
  { rewrite !drawPositions_app.
    pose proof (drawPositions_seek video (position st) time) as He.
    rewrite Hseek in He. cbn [snd] in He. now rewrite He. }
  unfold positionInvariant, afterStep. cbn [detections events].
  rewrite Hdraw, Hnat.
  split; [lia|]. split; [cbn [timeAt]; now rewrite <- Ht|].
  split; [rewrite length_app; cbn; lia|].
  intros k p Hk.
  destruct (Nat.lt_ge_cases k (List.length (drawPositions (events st)))) as [Hlt | Hge].
  - rewrite nth_error_app1 in Hk by exact Hlt. now apply Hnear.
  - rewrite nth_error_app2 in Hk by exact Hge.
    destruct (k - List.length (drawPositions (events st)))%nat as [|m] eqn:Hm.
    + cbn in Hk. inversion Hk; subst p.
      replace k with (Z.to_nat i) by lia. now rewrite <- Ht.
    + cbn in Hk. now destruct m.
Qed.

(** X12.  In exact arithmetic, and given that a seek answered by [seeked]
    leaves the video at the position asked for: in every run the frame of
    step [k] is drawn with the video less than 0.01 s away from the step's
    time [k * interval], and that time lies between 0 and the duration. *)
Theorem frames_drawn_near_sample_times (video : Video Q) (k : nat) (pos : Q) :
  nth_error (drawPositions (trace (extractDetections video))) k = Some pos ->
  Qabs (pos - inject_Z (Z.of_nat k) * sampleInterval video) < 1 # 100 /\
  0 <= inject_Z (Z.of_nat k) * sampleInterval video <= duration video.
Proof.
  intros Hk.
  assert (Hsteps : (k < sampledSteps (trace (extractDetections video)))%nat).
  { rewrite <- drawPositions_length. apply nth_error_Some. congruence. }
  destruct (extractDetections_trace video) as (_ & _ & Hle & _). cbn zeta in Hle.
  specialize (Hle k Hsteps). apply leb_Q in Hle.
  rewrite <- timeAt_multiple.
  split; [|split; [apply timeAt_nonneg | exact Hle]].
  revert Hk. unfold extractDetections.
  destruct (_ || _); [now destruct k|].
  destruct (negb _); [now destruct k|].
  destruct (sampleLoop_invariant video (videoWidth video) (videoHeight video)
              (sampleInterval video) (positionInvariant video)
              (positionInvariant_step video)
              (Z.to_nat MAX_SAMPLES + 2) (fromZ 0) 0%Z
              (mkLoopState (currentTime video) [] []))
    as (time' & i' & st' & rest & (_ & _ & _ & Hnear) & Htrace & _ & Hrest & _).
  { unfold positionInvariant. cbn. repeat split; try lia.
    intros j p Hj. now destruct j. }
  cbn zeta in Htrace. rewrite Htrace, drawPositions_app.
  assert (Hnil : drawPositions rest = []).
  { apply length_zero_iff_nil. now rewrite drawPositions_length. }
  rewrite Hnil, app_nil_r. apply Hnear.
Qed.

Lemma frames_drawn_near_sample_times_witness :
  exists pos,
    nth_error (drawPositions (trace (extractDetections
      (Scenarios.clip (num := Q) 100 Scenarios.blankFrame)))) 1 = Some pos /\
    Qabs (pos - inject_Z (Z.of_nat 1)
          * sampleInterval (Scenarios.clip (num := Q) 100 Scenarios.blankFrame)) < 1 # 100.
Proof.
  eexists. split; [vm_compute; reflexivity|].
  match goal with
  | |- Qabs (?pos - _) < _ =>
      assert (Hk : nth_error (drawPositions (trace (extractDetections
                     (@Scenarios.clip Q Number_Q 100 Scenarios.blankFrame)))) 1
                   = Some pos) by (vm_compute; reflexivity);
      exact (proj1 (frames_drawn_near_sample_times _ 1 pos Hk))
  end.
Defined.

End Seeking.

(** ** The detection sequence as a whole, and the progress bar *)

Section SequenceOrder.
Import Sampler.
Open Scope Q_scope.

Lemma increasing_all_pairs (ds : list (DetectionPoint.t Q)) :
  (forall k d1 d2, nth_error ds k = Some d1 -> nth_error ds (S k) = Some d2 ->
                   DetectionPoint.time d1 < DetectionPoint.time d2) ->
  forall n i di dj,
    nth_error ds i = Some di -> nth_error ds (S (i + n)) = Some dj ->
    DetectionPoint.time di < DetectionPoint.time dj.
Proof.
  intros Hstep. induction n as [|n IH]; intros i di dj Hi Hj.
  - rewrite Nat.add_0_r in Hj. now apply (Hstep i).
  - destruct (nth_error ds (S (i + n))) as [dm|] eqn:Hm.
    + apply Qlt_trans with (DetectionPoint.time dm); [now apply (IH i)|].
      apply (Hstep (S (i + n))); [exact Hm|].
      now replace (S (S (i + n))) with (S (i + S n)) by lia.
    + exfalso. apply nth_error_None in Hm.
      assert (Hsome : nth_error ds (S (i + S n)) <> None) by congruence.
      apply nth_error_Some in Hsome. lia.
Qed.

(** X13.  In exact arithmetic, in the sequence a completed run returns, a
    detection point that comes later has a strictly greater time than any
    that comes earlier (not only the one just before it), so no two points
    share a time; and every point's time lies between 0 and the clip's
    duration. *)
Theorem detection_times_distinct_and_in_range (video : Video Q) ds :
  outcome (extractDetections video) = Returned ds ->
  (forall i j di dj, (i < j)%nat ->
      nth_error ds i = Some di -> nth_error ds j = Some dj ->
      DetectionPoint.time di < DetectionPoint.time dj) /\
  NoDup (map DetectionPoint.time ds) /\
  (forall d, In d ds -> 0 <= DetectionPoint.time d <= duration video).
Proof.
  intros Hds.
  destruct (extractDetections_detections video ds Hds) as (Hinc & _ & _).
  assert (Hpairs : forall i j di dj, (i < j)%nat ->
             nth_error ds i = Some di -> nth_error ds j = Some dj ->
             DetectionPoint.time di < DetectionPoint.time dj).
  { intros i j di dj Hij Hi Hj.
    apply (increasing_all_pairs ds Hinc (j - i - 1) i); [exact Hi|].
    now replace (S (i + (j - i - 1))) with j by lia. }
  split; [exact Hpairs|]. split.
  - apply NoDup_nth_error. intros i j Hi Heq.
    rewrite length_map in Hi. rewrite !nth_error_map in Heq.
    destruct (nth_error ds i) as [di|] eqn:Hdi; [|apply nth_error_None in Hdi; lia].
    destruct (nth_error ds j) as [dj|] eqn:Hdj; [|discriminate].
    cbn in Heq. inversion Heq as [Ht].
    destruct (Nat.lt_trichotomy i j) as [Hlt | [-> | Hgt]]; [exfalso | reflexivity | exfalso].
    + specialize (Hpairs i j di dj Hlt Hdi Hdj). rewrite Ht in Hpairs.
      apply (Qlt_irrefl _ Hpairs).
    + specialize (Hpairs j i dj di Hgt Hdj Hdi). rewrite Ht in Hpairs.
      apply (Qlt_irrefl _ Hpairs).
  - intros d Hin.
    destruct (proj1 (detections_provenance video ds Hds) d Hin)
      as (k & pos & cand & Hk & _ & Hd).
    assert (Hsteps : (k < sampledSteps (trace (extractDetections video)))%nat).
    { rewrite <- drawPositions_length. apply nth_error_Some. congruence. }
    destruct (extractDetections_trace video) as (_ & _ & Hle & _). cbn zeta in Hle.
    specialize (Hle k Hsteps). apply leb_Q in Hle.
    unfold pushedAt in Hd. subst d. cbn [DetectionPoint.time].
    split; [apply timeAt_nonneg | exact Hle].
Qed.


Lemma detection_times_distinct_and_in_range_witness :
  exists ds,
    outcome (extractDetections (Scenarios.clip (num := Q) 100 Scenarios.ballFrame))
      = Returned ds /\
    NoDup (map DetectionPoint.time ds).
Proof.
  eexists. split; [vm_compute; reflexivity|].
  match goal with
  | |- NoDup (map _ ?ds) =>
      assert (Hrun : outcome (extractDetections
                        (@Scenarios.clip Q Number_Q 100 Scenarios.ballFrame))
                     = Returned ds) by (vm_compute; reflexivity);
      exact (proj1 (proj2 (detection_times_distinct_and_in_range _ ds Hrun)))
  end.
Defined.

Lemma round_Q (q : Q) : round q = inject_Z (Qfloor (q + (1 # 2))).
Proof. reflexivity. Qed.

(** X14.  In exact arithmetic, during a completed run on a clip of positive
    duration the width of the progress bar, [Math.round(progress * 100)]
    percent, is a whole number between 0 and 100 after every report, and it
    never gets narrower from one report to a later one. *)
Theorem progress_bar_never_shrinks (video : Video Q) ds (s : Analyzer.State Q) :
  0 < duration video ->
  outcome (extractDetections video) = Returned ds ->
  let reports := progressReports (trace (extractDetections video)) in
  let width p := Analyzer.progressBarWidth (Analyzer.setProgress p s) in
  (forall p, In p reports ->
     exists n : Z, width p = inject_Z n /\ (0 <= n <= 100)%Z) /\
  (forall i j pi pj, (i <= j)%nat ->
     nth_error reports i = Some pi -> nth_error reports j = Some pj ->
     width pi <= width pj).
Proof.
  intros Hd Hds. cbn zeta.
  destruct (extractDetections_trace video) as (_ & Hrep & _). cbn zeta in Hrep.
  rewrite Hrep. unfold Analyzer.progressBarWidth. cbn [Analyzer.progress Analyzer.setProgress].
  split.
  - intros p Hin. apply in_map_iff in Hin as (k & <- & _).
    destruct (progressAt_range video k Hd) as [H0 H1].
    rewrite round_Q. eexists. split; [reflexivity|].
    cbn [mul fromZ Number_Q]. change (inject_Z 100) with 100. split.
    + apply floor_ge. change (inject_Z 0) with 0. lra.
    + assert (Hlt : (Qfloor (progressAt video k * 100 + (1 # 2)) < 101)%Z); [|lia].
      apply Z.lt_nge. intros Hge. apply floor_ge in Hge.
      change (inject_Z 101) with 101 in Hge. lra.
  - intros i j pi pj Hij Hi Hj.
    apply nth_error_map_seq in Hi as [-> _]. apply nth_error_map_seq in Hj as [-> _].
    cbn [Nat.add]. rewrite !round_Q. rewrite <- Zle_Qle. apply Qfloor_resp_le.
    pose proof (progressAt_increasing video i j Hd Hij) as Hinc.
    cbn [mul fromZ Number_Q]. change (inject_Z 100) with 100. lra.
Qed.

Lemma progress_bar_never_shrinks_witness :
  Forall
    (fun p =>
       exists n : Z,
         Analyzer.progressBarWidth
           (Analyzer.setProgress p
              (Scenarios.analysed (Scenarios.clip (num := Q) 100 Scenarios.blankFrame)))
           = inject_Z n /\ (0 <= n <= 100)%Z)
    (progressReports (trace (extractDetections
       (Scenarios.clip (num := Q) 100 Scenarios.blankFrame)))).
Proof.
  destruct (extractDetections_returns (@Scenarios.clip Q Number_Q 100 Scenarios.blankFrame))
    as [ds Hds].
  - reflexivity.
  - cbn. discriminate.
  - cbn. discriminate.
  - reflexivity.
  - apply Forall_forall.
    exact (proj1 (progress_bar_never_shrinks
                    (@Scenarios.clip Q Number_Q 100 Scenarios.blankFrame) ds
                    (Scenarios.analysed (@Scenarios.clip Q Number_Q 100 Scenarios.blankFrame))
                    eq_refl Hds)).
Defined.

End SequenceOrder.

(** ** The analysis run: how the component is left *)

Section AnalyzerRuns.
Context {num : Type} `{Number num}.
Import Analyzer.

Variable convert : list (DetectionPoint.t num) -> Completion (list (HawkEyePoint.t num)).
Variable now : Z.



(** X17.  The message for unexpected failures is shown only when the
    projection throws something that is not an [Error] (or an [Error]
    carrying that very text): every failure of the guards, of
    [extractDetections] and of the empty-result check sets a message of its
    own. *)
Theorem unexpected_message_only_from_projection (s : State num) :
  error (handleAnalyze convert now s) = Some unexpectedMessage ->
  exists video dps,
    videoRef s = Some video /\
    Sampler.outcome (Sampler.extractDetections video) = Returned dps /\
    dps <> [] /\
    (convert dps = Threw OtherValue \/
     convert dps = Threw (ErrorObject unexpectedMessage)).
Proof.
  unfold handleAnalyze.
  destruct (videoRef s) as [video|]; [|discriminate].
  destruct (cvReady s); cbn [negb]; [|discriminate].
  unfold tryBlock.
  destruct (reportProgress_fields
              (Sampler.trace (Sampler.extractDetections video))
              (setProgress (fromZ 0) (setError None (setAnalyzing true s))))
    as (_ & _ & Herr & _). cbn zeta in Herr.
  set (s1 := reportProgress _ _) in *. cbn in Herr.
  destruct (Sampler.outcome (Sampler.extractDetections video)) as [dps|e|] eqn:Hout.
  - destruct dps as [|d dps]; cbn [List.length Nat.eqb]; [discriminate|].
    destruct (convert (d :: dps)) as [hps|e|] eqn:Hconv.
    + cbn [error setAnalyzing setProgress setAnalysisTimestamp setTrajectory setDetections].
      rewrite Herr. discriminate.
    + cbn [error setAnalyzing catchAnalysisError setError]. intros He. exists video, (d :: dps).
      split; [reflexivity|]. split; [exact Hout|]. split; [discriminate|].
      destruct e as [message|]; [right | left; exact Hconv].
      inversion He. subst message. exact Hconv.
    + cbv beta iota. rewrite Herr. discriminate.
  - cbn [error setAnalyzing catchAnalysisError setError]. intros He.
    destruct (extractDetections_throws video e Hout)
      as [(-> & _) | [(-> & _) | (-> & _)]]; discriminate.
  - cbv beta iota. rewrite Herr. discriminate.
Qed.

End AnalyzerRuns.



Lemma unexpected_message_only_from_projection_witness :
  exists video dps,
    Analyzer.videoRef (Scenarios.analysed (Scenarios.clip (num := Q) 100 Scenarios.ballFrame))
      = Some video /\
    Sampler.outcome (Sampler.extractDetections video) = Returned dps /\
    dps <> [].
Proof.
  assert (Herr : Analyzer.error
                   (Analyzer.handleAnalyze (fun _ => Threw OtherValue) 0%Z
                      (Scenarios.analysed (@Scenarios.clip Q Number_Q 100 Scenarios.ballFrame)))
                 = Some Analyzer.unexpectedMessage) by (vm_compute; reflexivity).
  destruct (@unexpected_message_only_from_projection Q Number_Q
              (fun _ => Threw OtherValue) 0%Z
              (Scenarios.analysed (@Scenarios.clip Q Number_Q 100 Scenarios.ballFrame))
              Herr)
    as (video & dps & Href & Hout & Hne & _).
  exists video, dps. split; [exact Href|]. split; [exact Hout | exact Hne].
Defined.

(** ** The Hawk-Eye view: markers, peak and height profile *)

Section ViewMarkers.
Context {num : Type} `{Number num}.
Import HawkEyeView.

Lemma forEachFrom_markers (points : list (HawkEyePoint.t num)) :
  forall rest index markers best,
    fst (forEachFrom points rest index (markers, best)) = markers ++ map markerOf rest.
Proof.
  induction rest as [|point rest IH]; intros index markers best; cbn [forEachFrom map].
  - now rewrite app_nil_r.
  - cbn [forEachBody]. rewrite IH, <- app_assoc. reflexivity.
Qed.

Lemma pointMarkers_map (points : list (HawkEyePoint.t num)) :
  pointMarkers (memo points) = map markerOf points.
Proof.
  unfold memo. destruct points as [|first rest]; [reflexivity|].
  pose proof (forEachFrom_markers (first :: rest) (first :: rest) 0 [] None) as Hm.
  destruct (forEachFrom _ _ _ _) as [viewMarkers bestBounce]. exact Hm.
Qed.

Lemma peakHeight_fold (points : list (HawkEyePoint.t num)) first rest :
  points = first :: rest ->
  peakHeight (memo points) =
  HawkEyePoint.height
    (fold_left
       (fun acc point =>
          if ltb (HawkEyePoint.height acc) (HawkEyePoint.height point) then point else acc)
       points first).
Proof.
  intros ->. unfold memo.
  now destruct (forEachFrom _ _ _ _) as [viewMarkers bestBounce].
Qed.

End ViewMarkers.

Section ViewExact.
Import HawkEyeView.
Open Scope Q_scope.

Lemma lateralRange_value : (lateralRange : Q) == 2125 # 1000.
Proof. reflexivity. Qed.

Lemma pitch_length_value : (PITCH_LENGTH_METERS : Q) == 2012 # 100.
Proof. reflexivity. Qed.

Lemma pitch_width_value : (PITCH_WIDTH_METERS : Q) == 305 # 100.
Proof. reflexivity. Qed.

Lemma markerX_value (point : HawkEyePoint.t Q) :
  markerX point == 50 + HawkEyePoint.lateral point * (304 # 17).
Proof.
  unfold markerX. cbn [add mul div fromZ Number_Q].
  rewrite lateralRange_value. change (inject_Z 50) with 50. change (inject_Z 38) with 38.
  field.
Qed.

Lemma markerY_value (point : HawkEyePoint.t Q) :
  markerY point == 200 - HawkEyePoint.distance point * (4500 # 503).
Proof.
  unfold markerY. cbn [sub mul div fromZ Number_Q].
  rewrite pitch_length_value. change (inject_Z 200) with 200. change (inject_Z 180) with 180.
  field.
Qed.

(** X18.  The view draws one marker per trajectory point, in order, with the
    point's height and confidence; in exact arithmetic a point whose lateral
    offset is within half the pitch width (1.525 m) either way and whose
    distance is between 0 and the pitch length (20.12 m) gets its marker
    inside the pitch rectangle of the drawing ([15 <= x <= 85],
    [20 <= y <= 200]), and [x = 50], the centre line, exactly for a zero
    lateral offset. *)
Theorem markers_inside_pitch (points : list (HawkEyePoint.t Q)) :
  pointMarkers (memo points) = map markerOf points /\
  forall i point,
    nth_error points i = Some point ->
    exists marker,
      nth_error (pointMarkers (memo points)) i = Some marker /\
      height marker = HawkEyePoint.height point /\
      confidence marker = HawkEyePoint.confidence point /\
      (Qabs (HawkEyePoint.lateral point) <= PITCH_WIDTH_METERS / 2 ->
       15 <= x marker <= 85) /\
      (0 <= HawkEyePoint.distance point <= PITCH_LENGTH_METERS ->
       20 <= y marker <= 200) /\
      (HawkEyePoint.lateral point == 0 -> x marker == 50).
Proof.
  split; [apply pointMarkers_map|].
  intros i point Hi. exists (markerOf point).
  rewrite pointMarkers_map, nth_error_map, Hi.
  split; [reflexivity|]. split; [reflexivity|]. split; [reflexivity|].
  cbn [markerOf x y].
  split; [|split].
  - rewrite pitch_width_value, markerX_value.
    setoid_replace ((305 # 100) / 2) with (1525 # 1000) by reflexivity.
    intros Hl. apply Qabs_Qle_condition in Hl as [Hlo Hhi].
    split; lra.
  - rewrite pitch_length_value, markerY_value. intros [Hlo Hhi]. split; lra.
  - rewrite markerX_value. intros ->. reflexivity.
Qed.

Lemma peak_fold (points : list (HawkEyePoint.t Q)) :
  forall acc,
    let peak :=
      fold_left
        (fun acc point =>
           if ltb (HawkEyePoint.height acc) (HawkEyePoint.height point) then point else acc)
        points acc in
    (peak = acc \/ In peak points) /\
    HawkEyePoint.height acc <= HawkEyePoint.height peak /\
    (forall point, In point points ->
                   HawkEyePoint.height point <= HawkEyePoint.height peak).
Proof.
  induction points as [|p rest IH]; intros acc; cbn zeta; cbn [fold_left].
  - split; [now left|]. split; [apply Qle_refl | intros point []].
  - destruct (ltb (HawkEyePoint.height acc) (HawkEyePoint.height p)) eqn:Hlt.
    + apply ltb_Q in Hlt. destruct (IH p) as (Hin & Hle & Hall). cbn zeta in *.
      split; [right; destruct Hin as [-> | Hin]; [now left | now right]|].
      split; [apply Qle_trans with (HawkEyePoint.height p); [now apply Qlt_le_weak | exact Hle]|].
      intros point [<- | Hp]; [exact Hle | now apply Hall].
    + apply ltb_Q_false in Hlt. destruct (IH acc) as (Hin & Hle & Hall). cbn zeta in *.
      split; [destruct Hin as [-> | Hin]; [now left | right; now right]|].
      split; [exact Hle|].
      intros point [<- | Hp]; [|now apply Hall].
      now apply Qle_trans with (HawkEyePoint.height acc).
Qed.

(** X19.  In exact arithmetic the peak height the view shows is the height
    of one of the trajectory's points and no point is higher; for an empty
    trajectory it is 0. *)
Theorem peakHeight_is_maximum (points : list (HawkEyePoint.t Q)) :
  match points with
  | [] => peakHeight (memo points) = 0
  | _ :: _ =>
      (exists point, In point points /\
                     peakHeight (memo points) = HawkEyePoint.height point) /\
      (forall point, In point points ->
                     HawkEyePoint.height point <= peakHeight (memo points))
  end.
Proof.
  destruct points as [|first rest]; [reflexivity|].
  rewrite (peakHeight_fold (first :: rest) first rest eq_refl).
  destruct (peak_fold (first :: rest) first) as (Hin & _ & Hall). cbn zeta in *.
  split; [|exact Hall].
  eexists. split; [|reflexivity].
  destruct Hin as [-> | Hin]; [now left | exact Hin].
Qed.

Lemma chartMaxHeight_bounds (points : list (HawkEyePoint.t Q)) :
  2 <= chartMaxHeight points /\
  forall point, In point points -> HawkEyePoint.height point <= chartMaxHeight points.
Proof.
  unfold chartMaxHeight.
  induction points as [|p rest [IH2 IHall]]; cbn [map fold_right].
  - split; [apply Qle_refl | intros point []].
  - cbn [max Number_Q] in *. split.
    + apply Qle_trans with (fold_right Qmax (fromZ 2) (map HawkEyePoint.height rest));
        [exact IH2 | apply Q.le_max_r].
    + intros point [<- | Hin]; [apply Q.le_max_l|].
      apply Qle_trans with (fold_right Qmax (fromZ 2) (map HawkEyePoint.height rest));
        [now apply IHall | apply Q.le_max_r].
Qed.

(** X20.  In exact arithmetic the height profile is scaled by
    [max(heights..., 2)], which is at least 2, so no height is divided by
    zero; every point of height at least 0 is plotted with [10 <= y <= 60],
    inside the chart, the highest point of a trajectory that rises above 2 m
    at [y = 10]; and a distance between 0 and the pitch length gives
    [0 <= x <= 100]. *)
Theorem height_profile_inside_chart (points : list (HawkEyePoint.t Q)) :
  2 <= chartMaxHeight points /\
  List.length (heightSeries points) = List.length points /\
  forall i point,
    nth_error points i = Some point ->
    nth_error (heightSeries points) i
      = Some (seriesX point, seriesY (chartMaxHeight points) point) /\
    (0 <= HawkEyePoint.height point ->
     10 <= seriesY (chartMaxHeight points) point <= 60) /\
    (HawkEyePoint.height point == chartMaxHeight points ->
     seriesY (chartMaxHeight points) point == 10) /\
    (0 <= HawkEyePoint.distance point <= PITCH_LENGTH_METERS ->
     0 <= seriesX point <= 100).
Proof.
  destruct (chartMaxHeight_bounds points) as [H2 Hall].
  split; [exact H2|]. split.
  - unfold heightSeries. destruct points; [reflexivity | now rewrite length_map].
  - intros i point Hi.
    assert (Hin : In point points) by (eapply nth_error_In; eauto).
    specialize (Hall point Hin).
    set (M := chartMaxHeight points) in *.
    assert (HM : 0 < M) by (apply Qlt_le_trans with 2; [reflexivity | exact H2]).
    assert (HMne : ~ M == 0) by (intros Hz; rewrite Hz in HM; discriminate).
    split; [|split; [|split]].
    + unfold heightSeries. destruct points as [|p0 rest]; [now destruct i|].
      now rewrite nth_error_map, Hi.
    + intros Hh. unfold seriesY. cbn [sub mul div fromZ Number_Q].
      change (inject_Z 60) with 60. change (inject_Z 50) with 50.
      assert (Hq0 : 0 <= HawkEyePoint.height point / M).
      { apply Qle_shift_div_l; [exact HM|]. now rewrite Qmult_0_l. }
      assert (Hq1 : HawkEyePoint.height point / M <= 1).
      { apply Qle_shift_div_r; [exact HM|]. now rewrite Qmult_1_l. }
      split; lra.
    + intros Heq. unfold seriesY. cbn [sub mul div fromZ Number_Q].
      change (inject_Z 60) with 60. change (inject_Z 50) with 50.
      rewrite Heq. field. exact HMne.
    + intros [Hlo Hhi]. unfold seriesX. cbn [mul div fromZ Number_Q].
      rewrite pitch_length_value in *. change (inject_Z 100) with 100.
      assert (Hx : HawkEyePoint.distance point / (2012 # 100) * 100
                   == HawkEyePoint.distance point * (2500 # 503)) by field.
      rewrite Hx. split; lra.
Qed.


Lemma markers_inside_pitch_witness :
  exists marker,
    nth_error (pointMarkers (memo (Scenarios.risingTrajectory (num := Q)))) 1 = Some marker /\
    15 <= x marker <= 85 /\ 20 <= y marker <= 200.
Proof.
  destruct (proj2 (markers_inside_pitch (@Scenarios.risingTrajectory Q Number_Q))
              1%nat _ eq_refl)
    as (marker & Hm & _ & _ & Hx & Hy & _).
  exists marker. split; [exact Hm|]. split.
  - apply Hx. vm_compute. discriminate.
  - apply Hy. split; vm_compute; discriminate.
Defined.

Lemma peakHeight_is_maximum_witness :
  HawkEyePoint.height (Scenarios.earlierPoint (num := Q))
    <= peakHeight (memo (Scenarios.risingTrajectory (num := Q))).
Proof.
  destruct (peakHeight_is_maximum (@Scenarios.risingTrajectory Q Number_Q))
    as [_ Hmax].
  apply Hmax. left. reflexivity.
Defined.

Lemma height_profile_inside_chart_witness :
  10 <= seriesY (chartMaxHeight (Scenarios.risingTrajectory (num := Q)))
          (Scenarios.earlierPoint (num := Q)) <= 60.
Proof.
  destruct (proj2 (proj2 (height_profile_inside_chart
                            (@Scenarios.risingTrajectory Q Number_Q)))
              0%nat (@Scenarios.earlierPoint Q Number_Q) eq_refl)
    as (_ & Hy & _).
  apply Hy. vm_compute. discriminate.
Defined.

End ViewExact.

(** ** The localizer: frames that are not downscaled *)

Section LocalizerScale.
Import Vision.
Open Scope Q_scope.

Lemma floor_half (w : Z) : Qfloor (inject_Z w * 1 + (1 # 2)) = w.
Proof.
  assert (Hq : inject_Z w * 1 + (1 # 2) == inject_Z w + (1 # 2)) by ring.
  rewrite (Qfloor_comp _ _ Hq).
  pose proof (Qfloor_le (inject_Z w + (1 # 2))) as Hlo.
  pose proof (Qlt_floor (inject_Z w + (1 # 2))) as Hhi.
  assert (H1 : inject_Z (Qfloor (inject_Z w + (1 # 2))) < inject_Z (w + 1)).
  { rewrite inject_Z_plus. change (inject_Z 1) with 1. lra. }
  assert (H2 : inject_Z w < inject_Z (Qfloor (inject_Z w + (1 # 2)) + 1)).
  { lra. }
  rewrite <- Zlt_Qlt in H1, H2. lia.
Qed.

(** X21.  In exact arithmetic, for a frame at most 480 pixels wide (whole
    numbers of columns and rows, at least one of each) nothing is scaled:
    the candidate's position is the centroid [(m10 / m00, m01 / m00)] of the
    winning contour, rounded to whole pixels. *)
Theorem detectBall_unscaled_centroid (src : Frame Q) (cand : Candidate Q) (w h : Z) :
  cols src = inject_Z w -> rows src = inject_Z h ->
  (1 <= w <= 480)%Z -> (1 <= h)%Z ->
  detectBallResult src = Some cand ->
  exists k c,
    firstMaximum src k c /\
    x cand = inject_Z (Qfloor (m10 c / m00 c + (1 # 2))) /\
    y cand = inject_Z (Qfloor (m01 c / m00 c + (1 # 2))).
Proof.
  intros Hcols Hrows Hw Hh Hc.
  destruct (detectBallResult_firstMaximum src cand Hc) as (k & c & Hk & Hm & Hx & Hy & _).
  exists k, c. split; [exact Hk|].
  cbv zeta in Hx, Hy. rewrite Hcols in Hx. rewrite Hcols, Hrows in Hy.
  assert (Hsmall : Qle_bool (inject_Z w) 480 = true).
  { apply Qle_bool_iff. change 480 with (inject_Z 480). rewrite <- Zle_Qle. lia. }
  rewrite Hsmall in Hx, Hy. rewrite !floor_half in Hx, Hy.
  assert (Hwne : ~ inject_Z w == 0).
  { change 0 with (inject_Z 0). rewrite inject_Z_injective. lia. }
  assert (Hhne : ~ inject_Z h == 0).
  { change 0 with (inject_Z 0). rewrite inject_Z_injective. lia. }
  split.
  - rewrite Hx. f_equal. apply Qfloor_comp. field. now split.
  - rewrite Hy. f_equal. apply Qfloor_comp. field. now split.
Qed.

Lemma detectBall_unscaled_centroid_witness :
  exists cand,
    detectBallResult (Vision.mkFrame false 320 240 [Scenarios.ball (num := Q)]) = Some cand /\
    x cand = 100 /\ y cand = 50.
Proof.
  eexists. split; [vm_compute; reflexivity|].
  match goal with
  | |- x ?cand = _ /\ _ =>
      assert (Hc : detectBallResult
                     (Vision.mkFrame false 320 240 [@Scenarios.ball Q Number_Q])
                   = Some cand) by (vm_compute; reflexivity);
      destruct (detectBall_unscaled_centroid
                  (Vision.mkFrame false 320 240 [@Scenarios.ball Q Number_Q])
                  cand 320 240 eq_refl eq_refl
                  ltac:(lia) ltac:(lia) Hc) as (k & c & _ & Hx & Hy)
  end.
  split; reflexivity.
Defined.

End LocalizerScale.
